(** * Request-scoped correlation ids and the structured logging pipeline

    A shallow embedding of [config/log.py], [api/app.py] and [api/chat.py]:
    the sinks registered by [setup_logging], the rendering filter [_filter],
    the bridging handler [InterceptHandler.emit] and the HTTP middleware
    [extra_process], together with the parts of loguru, [uuid] and
    [os.makedirs] whose behaviour the stated properties depend on. *)

From Stdlib Require Import ZArith NArith QArith Qround Ascii String.
From Stdlib Require Strings.Byte.
From stdpp Require Import base option list gmap strings.


(** ** Text: padding and positional numerals *)

(** [c * n] for a one-character string [c]. *)
Fixpoint repeat_char (c : ascii) (n : nat) : string :=
  match n with
  | O => ""
  | S n' => String c (repeat_char c n')
  end.

Inductive Align := AlignLeft | AlignRight | AlignCenter.

(** A format specification [fill align width], as in [{level: ^8}]. *)
Record FormatSpec := mkSpec {
  spec_fill : ascii;
  spec_align : Align;
  spec_width : nat
}.

(** [format(s, spec)] for a string: the text is never truncated; the padding
    of a centred text is split with the smaller half on the left. *)
Definition format_str (sp : FormatSpec) (s : string) : string :=
  let total := spec_width sp - String.length s in
  let left :=
    match spec_align sp with
    | AlignLeft => 0
    | AlignRight => total
    | AlignCenter => total / 2
    end in
  repeat_char (spec_fill sp) left +:+ s
    +:+ repeat_char (spec_fill sp) (total - left).

Definition ljust (w : nat) (s : string) : string :=
  format_str (mkSpec " " AlignLeft w) s.
Definition center (w : nat) (s : string) : string :=
  format_str (mkSpec " " AlignCenter w) s.
(** [s.rjust(w, "0")], the zero padding of [%0wd] and [%0wx]. *)
Definition zfill (w : nat) (s : string) : string :=
  format_str (mkSpec "0" AlignRight w) s.

Definition digit_char (d : N) : ascii :=
  match d with
  | 0 => "0" | 1 => "1" | 2 => "2" | 3 => "3" | 4 => "4" | 5 => "5"
  | 6 => "6" | 7 => "7" | 8 => "8" | 9 => "9" | 10 => "a" | 11 => "b"
  | 12 => "c" | 13 => "d" | 14 => "e" | _ => "f"
  end%N%char.

(** Digits of [n] in base [b], most significant first, pushed onto [acc]. *)
Fixpoint to_base_go (b : N) (fuel : nat) (n : N) (acc : string) : string :=
  match fuel with
  | O => acc
  | S fuel' =>
      let acc' := String (digit_char (n mod b)) acc in
      if (n / b =? 0)%N then acc' else to_base_go b fuel' (n / b) acc'
  end.

(** A number has no more digits than bits. *)
Definition to_base (b : N) (n : N) : string :=
  to_base_go b (S (N.to_nat (N.log2 n))) n "".

(** [str(n)] and [format(n, "x")] for a natural number. *)
Definition dec (n : N) : string := to_base 10 n.
Definition hex (n : N) : string := to_base 16 n.

(** [str(z)] for a Python [int]. *)
Definition str_int (z : Z) : string :=
  match z with
  | Zneg p => String "-" (dec (Npos p))
  | _ => dec (Z.to_N z)
  end.



(** Value of a string of hexadecimal digits, for reading an id back. *)
Definition hex_val (c : ascii) : N :=
  let n := N_of_ascii c in
  if (n <? 58)%N then (n - 48)%N else (n - 87)%N.

Fixpoint of_hex_go (s : string) (acc : N) : N :=
  match s with
  | EmptyString => acc
  | String c s' => of_hex_go s' (acc * 16 + hex_val c)%N
  end.
Definition of_hex (s : string) : N := of_hex_go s 0%N.

(** ** [uuid.uuid4().hex] *)

(** [int.from_bytes(bs)], big endian. *)
Definition int_from_bytes (bs : list Byte.byte) : N :=
  fold_left (fun acc b => (acc * 256 + Byte.to_N b)%N) bs 0%N.

(** [UUID(bytes=bs, version=4).int]: the variant and version bits are forced,
    the other 122 bits are those of [bs]. *)
Definition uuid4_int (bs : list Byte.byte) : N :=
  let i := int_from_bytes bs in
  let i := N.ldiff i (N.shiftl 0xc000 48) in
  let i := N.lor i (N.shiftl 0x8000 48) in
  let i := N.ldiff i (N.shiftl 0xf000 64) in
  N.lor i (N.shiftl 4 76).

(** [UUID.hex], that is ['%032x' % self.int]. *)
Definition uuid4_hex (bs : list Byte.byte) : string :=
  zfill 32 (hex (uuid4_int bs)).

(** ** Exceptions *)

Inductive Exn :=
| ValueError (msg : string)
| AttributeError (msg : string)
| FileExistsError (path : list string)
| FileNotFoundError (path : list string)
| NotADirectoryError (path : list string)
| AppError (msg : string).

Inductive Outcome (A : Type) :=
| Returned (a : A)
| Raised (e : Exn).
Arguments Returned {A} a.
Arguments Raised {A} e.

(** ** The loguru pipeline, as far as [config/log.py] drives it *)

Record DateTime := mkDateTime {
  dt_year : N; dt_month : N; dt_day : N;
  dt_hour : N; dt_minute : N; dt_second : N;
  dt_microsecond : N
}.

(** Tokens of a time format such as [YYYY-MM-DD HH:mm:ss.SSS]. *)
Inductive TimeTok := YYYY | MM | DD | HH | mm | ss | SSS | TLit (s : string).

Definition time_tok (t : DateTime) (k : TimeTok) : string :=
  match k with
  | YYYY => zfill 4 (dec (dt_year t))
  | MM => zfill 2 (dec (dt_month t))
  | DD => zfill 2 (dec (dt_day t))
  | HH => zfill 2 (dec (dt_hour t))
  | mm => zfill 2 (dec (dt_minute t))
  | ss => zfill 2 (dec (dt_second t))
  | SSS => zfill 3 (dec (dt_microsecond t / 1000))
  | TLit s => s
  end.

Fixpoint format_time (fmt : list TimeTok) (t : DateTime) : string :=
  match fmt with
  | [] => ""
  | k :: fmt' => time_tok t k +:+ format_time fmt' t
  end.

(** A level of the pipeline: name, severity, and the SGR codes of its colour. *)
Record Level := mkLevel {
  lv_name : string;
  lv_no : Z;
  lv_sgr : list N
}.

(** loguru's built-in levels; the repository registers no other. *)
Definition levels : list Level :=
  [ mkLevel "TRACE" 5 [36; 1]%N;
    mkLevel "DEBUG" 10 [34; 1]%N;
    mkLevel "INFO" 20 [1]%N;
    mkLevel "SUCCESS" 25 [32; 1]%N;
    mkLevel "WARNING" 30 [33; 1]%N;
    mkLevel "ERROR" 40 [31; 1]%N;
    mkLevel "CRITICAL" 50 [41; 1]%N ].

Fixpoint find_level (name : string) (ls : list Level) : option Level :=
  match ls with
  | [] => None
  | l :: ls' => if String.eqb (lv_name l) name then Some l else find_level name ls'
  end.

(** [logger.level(name)]: the level of that name, [ValueError] if there is
    none. *)
Definition logger_level (name : string) : Exn + Level :=
  match find_level name levels with
  | Some l => inr l
  | None => inl (ValueError ("Level '" +:+ name +:+ "' does not exist"))
  end.

(** What a caller hands to [logger.log]: a level name or a severity. *)
Inductive LevelArg := LName (name : string) | LNo (no : Z).

(** Level resolution at the head of [Logger._log]. *)
Definition resolve_level (a : LevelArg) : Exn + Level :=
  match a with
  | LName name => logger_level name
  | LNo n =>
      if (n <? 0)%Z
      then inl (ValueError
                  ("Invalid level value, it should be a positive integer, not: "
                     +:+ str_int n))
      else inr (mkLevel ("Level " +:+ str_int n) n [])
  end.

Record LogRecord := mkRecord {
  r_time : DateTime;
  r_level : Level;
  r_extra : gmap string string;
  r_process : N;
  r_thread : N;
  r_name : string;
  r_function : string;
  r_line : N;
  r_message : string;
  r_exception : option string
}.

Definition set_extra (e : gmap string string) (r : LogRecord) : LogRecord :=
  mkRecord (r_time r) (r_level r) e (r_process r) (r_thread r) (r_name r)
    (r_function r) (r_line r) (r_message r) (r_exception r).

(** Colour markup of a format string. *)
Inductive Tag := TagGreen | TagCyan | TagLevel.

Inductive Field :=
| FTime (fmt : list TimeTok)
| FLevel
| FExtra (key : string)
| FProcess
| FThread
| FName
| FFunction
| FLine
| FMessage.

(** A parsed format string: literal text, [{field:spec}] and markup tags. *)
Inductive Item :=
| Lit (s : string)
| Fld (f : Field) (sp : option FormatSpec)
| Open (t : Tag)
| Close (t : Tag).

Definition esc : ascii := ascii_of_nat 27.

Definition sgr (code : N) : string :=
  String esc ("[" +:+ dec code +:+ "m").

Fixpoint sgr_seq (codes : list N) : string :=
  match codes with
  | [] => ""
  | c :: cs => sgr c +:+ sgr_seq cs
  end.

Definition ansi_open (lv : Level) (t : Tag) : string :=
  match t with
  | TagGreen => sgr 32
  | TagCyan => sgr 36
  | TagLevel => sgr_seq (lv_sgr lv)
  end.

Definition ansi_reset : string := sgr 0.

(** The text of a field; [None] is the [KeyError] of a missing extra key. *)
Definition field_text (r : LogRecord) (f : Field) : option string :=
  match f with
  | FTime fmt => Some (format_time fmt (r_time r))
  | FLevel => Some (lv_name (r_level r))
  | FExtra key => r_extra r !! key
  | FProcess => Some (dec (r_process r))
  | FThread => Some (dec (r_thread r))
  | FName => Some (r_name r)
  | FFunction => Some (r_function r)
  | FLine => Some (dec (r_line r))
  | FMessage => Some (r_message r)
  end.

Definition render_item (colorize : bool) (r : LogRecord) (it : Item)
  : option string :=
  match it with
  | Lit s => Some s
  | Fld f sp =>
      match field_text r f, sp with
      | Some s, Some sp => Some (format_str sp s)
      | Some s, None => Some s
      | None, _ => None
      end
  | Open t => Some (if colorize then ansi_open (r_level r) t else "")
  | Close _ => Some (if colorize then ansi_reset else "")
  end.

Fixpoint render (colorize : bool) (fmt : list Item) (r : LogRecord)
  : option string :=
  match fmt with
  | [] => Some ""
  | it :: fmt' =>
      match render_item colorize r it, render colorize fmt' r with
      | Some s, Some rest => Some (s +:+ rest)
      | _, _ => None
      end
  end.

(** Where a handler writes: the console stream, or the dated file
    [dir/prefix{time:YYYY-MM-DD}.log]. *)
Inductive Sink :=
| Stdout
| FileSink (dir : list string) (prefix : string).

(** A filter sees the value of the correlation slot in the execution context
    of the logging call, may rewrite the record, and lets it pass or not. *)
Definition Filter : Type := option string -> LogRecord -> LogRecord * bool.

Record Handler := mkHandler {
  h_sink : Sink;
  h_format : list Item;
  h_levelno : Z;
  h_filter : option Filter;
  h_colorize : bool;
  h_enqueue : bool;
  h_backtrace : bool;
  h_diagnose : bool;
  h_rotation : option string;
  h_retention : option string;
  h_compression : option string;
  h_encoding : option string
}.

(** The arguments of [logger.add]; [None] is an argument left out. *)
Record AddArgs := mkAdd {
  a_sink : Sink;
  a_format : list Item;
  a_level : string;
  a_filter : option Filter;
  a_colorize : option bool;
  a_enqueue : option bool;
  a_backtrace : option bool;
  a_diagnose : option bool;
  a_rotation : option string;
  a_retention : option string;
  a_compression : option string;
  a_encoding : option string
}.

(** The handlers in registration order, and the id of the next one. *)
Record Core := mkCore {
  handlers : list (nat * Handler);
  handlers_count : nat
}.

(** A line handed to a sink: its text and the record it was rendered from,
    as loguru's [Message] carries both. *)
Record Message := mkMessage {
  m_handler : nat;
  m_text : string;
  m_record : LogRecord
}.

(** [logger.remove()] *)
Definition logger_remove (c : Core) : Core :=
  mkCore [] (handlers_count c).

(** [logger.add(sink, ...)]: a file is never colourised unless asked. *)
Definition logger_add (a : AddArgs) (c : Core) : Exn + (nat * Core) :=
  match logger_level (a_level a) with
  | inl e => inl e
  | inr lv =>
      let h := mkHandler (a_sink a) (a_format a) (lv_no lv) (a_filter a)
                 (default false (a_colorize a))
                 (default false (a_enqueue a))
                 (default true (a_backtrace a))
                 (default true (a_diagnose a))
                 (a_rotation a) (a_retention a) (a_compression a)
                 (a_encoding a) in
      inr (handlers_count c,
           mkCore (handlers c ++ [(handlers_count c, h)])
             (S (handlers_count c)))
  end.

(** [Handler.emit]: the level gate, then the filter, then the formatter. The
    record is one object shared by all handlers, so what a filter writes into
    it is what the next handler receives. A formatting error is caught and
    the line dropped. *)
Definition handler_emit (ctx : option string) (id : nat) (h : Handler)
    (r : LogRecord) : LogRecord * list Message :=
  if (lv_no (r_level r) <? h_levelno h)%Z then (r, [])
  else
    let '(r', keep) :=
      match h_filter h with
      | Some f => f ctx r
      | None => (r, true)
      end in
    if keep then
      match render (h_colorize h) (h_format h) r' with
      | Some text => (r', [mkMessage id text r'])
      | None => (r', [])
      end
    else (r', []).

Fixpoint emit_all (ctx : option string) (hs : list (nat * Handler))
    (r : LogRecord) : list Message :=
  match hs with
  | [] => []
  | (id, h) :: hs' =>
      let '(r', out) := handler_emit ctx id h r in
      out ++ emit_all ctx hs' r'
  end.

(** The frame a logging call is attributed to. *)
Record Frame := mkFrame {
  f_filename : string;
  f_name : string;
  f_function : string;
  f_line : N
}.

(** What the interpreter supplies to a logging call: the clock, the process
    and thread ids, and the frame of the caller. *)
Record CallSite := mkSite {
  s_time : DateTime;
  s_process : N;
  s_thread : N;
  s_frame : Frame
}.

(** A logging call on a logger that has extra fields bound to it and may
    carry exception information: [logger.log(level, message)]. *)
Record LogCall := mkCall {
  lc_site : CallSite;
  lc_level : LevelArg;
  lc_message : string;
  lc_extra : gmap string string;
  lc_exception : option string
}.

(** The record of a call at level [lv]. *)
Definition build_record (lv : Level) (call : LogCall) : LogRecord :=
  let site := lc_site call in
  mkRecord (s_time site) lv (lc_extra call) (s_process site) (s_thread site)
    (f_name (s_frame site)) (f_function (s_frame site))
    (f_line (s_frame site)) (lc_message call) (lc_exception call).

(** [Logger._log]: nothing happens without handlers; otherwise the level is
    resolved, the record built and offered to every handler in turn. *)
Definition logger_log (ctx : option string) (c : Core) (call : LogCall)
  : Exn + list Message :=
  match handlers c with
  | [] => inr []
  | hs =>
      match resolve_level (lc_level call) with
      | inl e => inl e
      | inr lv => inr (emit_all ctx hs (build_record lv call))
      end
  end.

(** ** The correlation context *)

(** Modelled from the spec: [request_id_context], declared in
    [config/context.py], which is not among the sources. Section 4.1 gives
    its contract: a slot local to the execution context, [set(value)]
    installs [value] for the calling execution, [get(default)] returns the
    current value or [default] when none is set, and never fails. The slot is
    kept per task: [cv !! t] is the value current in task [t]. *)
Definition request_id_context_get (d : string) (cur : option string)
  : string :=
  default d cur.

(** Modelled from the spec: [request_id_context.set(v)] in task [t], by the
    same contract; the slots of the other tasks are left as they are. *)
Definition request_id_context_set (t : nat) (v : string)
    (cv : gmap nat string) : gmap nat string :=
  <[t := v]> cv.

(** ** [config/log.py] *)

Record Settings := mkSettings {
  BASE_DIR : list string;
  DEBUG : bool;
  LOG_ROTATION : string;
  LOG_RETENTION : string;
  LOG_COMPRESSION : string
}.

(** [Settings], with the directory two levels above [config/log.py] left to
    the installation. *)
Definition settings (base : list string) : Settings :=
  mkSettings base true "00:00" "30 days" "zip".

(** [_filter(record)] *)
Definition _filter : Filter :=
  fun cur record =>
    (set_extra {[ "traceid" := request_id_context_get "miss_traceid" cur ]}
       record,
     true).

(** The format string of [setup_logging], parsed. *)
Definition log_format : list Item :=
  [ Lit "| "; Open TagGreen;
    Fld (FTime [YYYY; TLit "-"; MM; TLit "-"; DD; TLit " ";
                HH; TLit ":"; mm; TLit ":"; ss; TLit "."; SSS]) None;
    Close TagGreen; Lit " | ";
    Open TagLevel; Fld FLevel (Some (mkSpec " " AlignCenter 8));
    Close TagLevel; Lit " | ";
    Open TagLevel; Fld (FExtra "traceid") (Some (mkSpec " " AlignLeft 32));
    Close TagLevel; Lit " | ";
    Lit "process ["; Open TagCyan; Fld FProcess None; Close TagCyan;
    Lit "]:"; Open TagCyan; Fld FThread None; Close TagCyan; Lit " | ";
    Open TagCyan; Fld FName None; Close TagCyan; Lit ":";
    Open TagCyan; Fld FFunction None; Close TagCyan; Lit ":";
    Open TagCyan; Fld FLine None; Close TagCyan; Lit " - ";
    Open TagLevel; Fld FMessage None; Close TagLevel; Lit " |" ].

(** A record of the standard [logging] module as [emit] receives it, with
    the interpreter stack at that moment: [sr_stack] lists the frames from
    that of [emit] outwards, and [sr_currentframe] is the index of the frame
    [logging.currentframe()] returns. *)
Record StdRecord := mkStd {
  sr_levelname : string;
  sr_levelno : Z;
  sr_message : string;
  sr_exc_info : option string;
  sr_time : DateTime;
  sr_process : N;
  sr_thread : N;
  sr_stack : list Frame;
  sr_currentframe : nat
}.

Definition logging_file : string := "logging/__init__.py".

(** The level [emit] re-emits at: the pipeline's level of the same name, or
    the raw severity when [logger.level] raises [ValueError]. *)
Definition emit_level (record : StdRecord) : LevelArg :=
  match logger_level (sr_levelname record) with
  | inr lv => LName (lv_name lv)
  | inl _ => LNo (sr_levelno record)
  end.

(** The loop over [frame.f_back]: running off the stack is the
    [AttributeError] of [None.f_code]. *)
Fixpoint emit_depth (frames : list Frame) (depth : nat) : Exn + nat :=
  match frames with
  | [] => inl (AttributeError "'NoneType' object has no attribute 'f_code'")
  | frame :: back =>
      if String.eqb (f_filename frame) logging_file
      then emit_depth back (S depth)
      else inr depth
  end.

(** [InterceptHandler.emit(record)] *)
Definition emit (ctx : option string) (c : Core) (record : StdRecord)
  : Exn + list Message :=
  let level := emit_level record in
  match emit_depth (drop (sr_currentframe record) (sr_stack record)) 2 with
  | inl e => inl e
  | inr depth =>
      match sr_stack record !! depth with
      | None => inl (ValueError "call stack is not deep enough")
      | Some frame =>
          logger_log ctx c
            (mkCall (mkSite (sr_time record) (sr_process record)
                       (sr_thread record) frame)
               level (sr_message record) ∅ (sr_exc_info record))
      end
  end.

(** *** The file system seen by [os.makedirs] *)

Inductive Node := Dir | File.

(** Paths are lists of components below the root, which always exists. *)
Definition path_exists (p : list string) (fs : gmap (list string) Node)
  : bool :=
  match p with
  | [] => true
  | _ => bool_decide (is_Some (fs !! p))
  end.

Definition path_isdir (p : list string) (fs : gmap (list string) Node)
  : bool :=
  match p, fs !! p with
  | [], _ => true
  | _, Some Dir => true
  | _, _ => false
  end.

(** [os.mkdir(p)] for [p = rev (tail :: rhead)]. *)
Definition mkdir (tail : string) (rhead : list string)
    (fs : gmap (list string) Node) : Exn + gmap (list string) Node :=
  let p := rev (tail :: rhead) in
  if path_exists p fs then inl (FileExistsError p)
  else if negb (path_exists (rev rhead) fs) then inl (FileNotFoundError p)
  else if negb (path_isdir (rev rhead) fs) then inl (NotADirectoryError p)
  else inr (<[p := Dir]> fs).

(** [os.makedirs(p, exist_ok=exist_ok)], by recursion on the reversed path:
    the missing ancestors first, then the leaf, whose [OSError] is forgiven
    when [exist_ok] holds and the leaf is a directory. *)
Fixpoint makedirs_rev (exist_ok : bool) (rp : list string)
    (fs : gmap (list string) Node) : Exn + gmap (list string) Node :=
  match rp with
  | [] => if exist_ok then inr fs else inl (FileExistsError [])
  | tail :: rhead =>
      let above :=
        if path_exists (rev rhead) fs then inr fs
        else
          match makedirs_rev exist_ok rhead fs with
          | inl (FileExistsError _) => inr fs
          | other => other
          end in
      match above with
      | inl e => inl e
      | inr fs1 =>
          match mkdir tail rhead fs1 with
          | inr fs2 => inr fs2
          | inl e =>
              if exist_ok && path_isdir (rev rp) fs1 then inr fs1 else inl e
          end
      end
  end.

Definition makedirs (p : list string) (exist_ok : bool)
    (fs : gmap (list string) Node) : Exn + gmap (list string) Node :=
  makedirs_rev exist_ok (rev p) fs.

(** [async_makedirs(path, exist_ok)]: [os.makedirs] on a worker thread,
    awaited. *)
Definition async_makedirs (path : list string) (exist_ok : bool)
    (fs : gmap (list string) Node) : Exn + gmap (list string) Node :=
  makedirs path exist_ok fs.

(** *** The configuration of the standard [logging] module *)

Inductive StdHandler := InterceptHandler | ForeignHandler (name : string).

Record StdLogger := mkStdLogger {
  sl_handlers : list StdHandler;
  sl_propagate : bool;
  sl_level : Z
}.

Record StdLogging := mkStdLogging {
  std_root : StdLogger;
  std_named : gmap string StdLogger
}.

(** [logging.basicConfig(handlers=hs, level=lvl, force=True)] *)
Definition basicConfig (hs : list StdHandler) (lvl : Z) (s : StdLogging)
  : StdLogging :=
  mkStdLogging (mkStdLogger hs (sl_propagate (std_root s)) lvl) (std_named s).

(** [logging.getLogger(name)] creates the logger on first use; the loop body
    of [setup_logging] then replaces its handlers and stops propagation. *)
Definition redirect_logger (s : StdLogging) (name : string) : StdLogging :=
  let l := default (mkStdLogger [] true 0) (std_named s !! name) in
  mkStdLogging (std_root s)
    (<[name := mkStdLogger [InterceptHandler] false (sl_level l)]>
       (std_named s)).

Definition third_party_loggers : list string :=
  [ "uvicorn"; "uvicorn.error"; "uvicorn.access"; "uvicorn.asgi";
    "fastapi"; "fastapi.error" ].

(** *** The state of the process *)

Record World := mkWorld {
  w_core : Core;
  w_std : StdLogging;
  w_fs : gmap (list string) Node;
  (** the correlation slot of every task *)
  w_ctx : gmap nat string;
  (** the lines handed to the sinks, oldest first *)
  w_out : list Message;
  (** the readings [time.time()] will give, and how many were taken *)
  w_clock : nat -> Q;
  w_ticks : nat;
  (** the bytes [os.urandom] will give, and how many were taken *)
  w_entropy : nat -> Byte.byte;
  w_drawn : nat
}.

Definition with_logging (c : Core) (s : StdLogging)
    (fs : gmap (list string) Node) (out : list Message) (w : World) : World :=
  mkWorld c s fs (w_ctx w) out (w_clock w) (w_ticks w) (w_entropy w)
    (w_drawn w).

Definition ok_bind {A B : Type} (m : Exn + A) (k : A -> Exn + B) : Exn + B :=
  match m with
  | inl e => inl e
  | inr a => k a
  end.

Notation "'try' x := m 'in' k" := (ok_bind m (fun x => k))
  (at level 10, x pattern, m at level 100, k at level 200).

Definition info_call (site : CallSite) (message : string) : LogCall :=
  mkCall site (LName "INFO") message ∅ None.

Definition console_sink (st : Settings) : AddArgs :=
  mkAdd Stdout log_format (if DEBUG st then "DEBUG" else "INFO")
    (Some _filter) (Some true) (Some true) (Some true) (Some true)
    None None None None.

Definition general_sink (st : Settings) (log_dir : list string) : AddArgs :=
  mkAdd (FileSink log_dir "") log_format "INFO" (Some _filter) None
    (Some true) None None
    (Some (LOG_ROTATION st)) (Some (LOG_RETENTION st))
    (Some (LOG_COMPRESSION st)) (Some "utf-8").

Definition error_sink (st : Settings) (log_dir : list string) : AddArgs :=
  mkAdd (FileSink log_dir "error_") log_format "ERROR" (Some _filter) None
    (Some true) None None
    (Some (LOG_ROTATION st)) (Some (LOG_RETENTION st))
    (Some (LOG_COMPRESSION st)) (Some "utf-8").

(** [setup_logging()], run by task [t] at start-up; [site] is where its
    closing [logger.info] is called from. *)
Definition setup_logging (st : Settings) (site : CallSite) (t : nat)
    (w : World) : Exn + World :=
  let c := logger_remove (w_core w) in
  try (_, c) := logger_add (console_sink st) c in
  let log_dir := (BASE_DIR st ++ ["logs"]) in
  try fs := async_makedirs log_dir true (w_fs w) in
  try (_, c) := logger_add (general_sink st log_dir) c in
  try (_, c) := logger_add (error_sink st log_dir) c in
  let std := basicConfig [InterceptHandler] 0 (w_std w) in
  let std := foldl redirect_logger std third_party_loggers in
  try lines := logger_log (w_ctx w !! t) c
                 (info_call site "init logger success") in
  inr (with_logging c std fs (w_out w ++ lines) w).

(** ** Coroutines *)

(** What application code reached through [call_next] does to the process:
    it logs through loguru, it logs through the standard module (which hands
    the record to [InterceptHandler.emit]), it suspends, it reads the clock.
    It has no operation on the correlation slot: the only call of
    [request_id_context.set] in the repository is the middleware's. *)
Inductive AppE : Type -> Type :=
| Log (call : LogCall) : AppE unit
| StdLog (record : StdRecord) : AppE unit
| Await : AppE unit
| TimeTime : AppE Q.

(** The middleware also writes the correlation slot and draws random bytes. *)
Inductive MwE : Type -> Type :=
| InApp {X : Type} (e : AppE X) : MwE X
| CtxSet (v : string) : MwE unit
| Urandom (n : nat) : MwE (list Byte.byte).

(** A coroutine over the operations [E]: it returns, raises, or performs an
    operation and goes on with its answer. *)
Inductive Coro (E : Type -> Type) (A : Type) : Type :=
| Ret (a : A)
| Raise (e : Exn)
| Vis {X : Type} (op : E X) (k : X -> Coro E A).
Arguments Ret {E A} a.
Arguments Raise {E A} e.
Arguments Vis {E A X} op k.

Fixpoint coro_bind {E : Type -> Type} {A B : Type} (c : Coro E A)
    (f : A -> Coro E B) : Coro E B :=
  match c with
  | Ret a => f a
  | Raise e => Raise e
  | Vis op k => Vis op (fun x => coro_bind (k x) f)
  end.

Definition perform {E : Type -> Type} {X : Type} (op : E X) : Coro E X :=
  Vis op Ret.

#[global] Instance coro_mbind (E : Type -> Type) : MBind (Coro E) :=
  fun A B f c => coro_bind c f.
#[global] Instance coro_mret (E : Type -> Type) : MRet (Coro E) :=
  fun A a => Ret a.

(** Application code awaited from the middleware. *)
Fixpoint lift {A : Type} (c : Coro AppE A) : Coro MwE A :=
  match c with
  | Ret a => Ret a
  | Raise e => Raise e
  | Vis op k => Vis (InApp op) (fun x => lift (k x))
  end.

(** *** What the operations do *)

Definition append_out (lines : list Message) (w : World) : World :=
  mkWorld (w_core w) (w_std w) (w_fs w) (w_ctx w) (w_out w ++ lines)
    (w_clock w) (w_ticks w) (w_entropy w) (w_drawn w).

Definition tick (w : World) : World :=
  mkWorld (w_core w) (w_std w) (w_fs w) (w_ctx w) (w_out w)
    (w_clock w) (S (w_ticks w)) (w_entropy w) (w_drawn w).

Definition draw (n : nat) (w : World) : World :=
  mkWorld (w_core w) (w_std w) (w_fs w) (w_ctx w) (w_out w)
    (w_clock w) (w_ticks w) (w_entropy w) (w_drawn w + n).

Definition set_ctx (t : nat) (v : string) (w : World) : World :=
  mkWorld (w_core w) (w_std w) (w_fs w)
    (request_id_context_set t v (w_ctx w)) (w_out w)
    (w_clock w) (w_ticks w) (w_entropy w) (w_drawn w).

(** The lines of a logging call are rendered in the caller's context and
    queued for the sinks; a call that raises leaves the process as it was. *)
Definition logged {X : Type} (x : X) (res : Exn + list Message) (w : World)
  : (Exn + X) * World :=
  match res with
  | inl e => (inl e, w)
  | inr lines => (inr x, append_out lines w)
  end.

Definition handle_app {X : Type} (op : AppE X) (t : nat) (w : World)
  : (Exn + X) * World :=
  match op in AppE X return (Exn + X) * World with
  | Log call => logged tt (logger_log (w_ctx w !! t) (w_core w) call) w
  | StdLog record => logged tt (emit (w_ctx w !! t) (w_core w) record) w
  | Await => (inr tt, w)
  | TimeTime => (inr (w_clock w (w_ticks w)), tick w)
  end.

Definition handle_mw {X : Type} (op : MwE X) (t : nat) (w : World)
  : (Exn + X) * World :=
  match op in MwE X return (Exn + X) * World with
  | InApp e => handle_app e t w
  | CtxSet v => (inr tt, set_ctx t v w)
  | Urandom n =>
      (inr (map (fun i => w_entropy w (w_drawn w + i)) (seq 0 n)), draw n w)
  end.

(** Running a coroutine of task [t] to its end, without interruption. *)
Fixpoint run {E : Type -> Type}
    (handle : forall X : Type, E X -> nat -> World -> (Exn + X) * World)
    {A : Type} (c : Coro E A) (t : nat) (w : World) : Outcome A * World :=
  match c with
  | Ret a => (Returned a, w)
  | Raise e => (Raised e, w)
  | Vis op k =>
      match handle _ op t w with
      | (inl e, w') => (Raised e, w')
      | (inr x, w') => run handle (k x) t w'
      end
  end.

Definition run_downstream {A : Type} := @run AppE (@handle_app) A.
Definition run_middleware {A : Type} := @run MwE (@handle_mw) A.

(** One operation of a coroutine: the rest of the coroutine and the process
    after it; a finished coroutine stays as it is. *)
Definition step_mw {A : Type} (c : Coro MwE A) (t : nat) (w : World)
  : Coro MwE A * World :=
  match c with
  | Vis op k =>
      match handle_mw op t w with
      | (inl e, w') => (Raise e, w')
      | (inr x, w') => (k x, w')
      end
  | done => (done, w)
  end.

(** ** [api/app.py] and [api/chat.py] *)

Record URL := mkURL {
  url_scheme : string;
  url_netloc : string;
  url_path : string;
  url_query : string
}.

(** [str(request.url)] *)
Definition url_str (u : URL) : string :=
  url_scheme u +:+ "://" +:+ url_netloc u +:+ url_path u
    +:+ (if String.eqb (url_query u) "" then "" else "?" +:+ url_query u).

Record Request := mkRequest {
  req_headers : list (string * string);
  req_url : URL
}.

(** A response: its status and the JSON object of its body. *)
Record Response := mkResponse {
  status_code : Z;
  resp_body : list (string * string)
}.

(** [request.headers.get(key)]: the first header of that name. *)
Fixpoint headers_get (hs : list (string * string)) (key : string)
  : option string :=
  match hs with
  | [] => None
  | (k, v) :: hs' => if String.eqb k key then Some v else headers_get hs' key
  end.

(** [int(x)] truncates towards zero. *)
Definition int_of (x : Q) : Z := Z.quot (Qnum x) (Zpos (Qden x)).

Definition finished_message (ptime : Q) (response : Response)
    (request : Request) : string :=
  "process finished... process time [" +:+ str_int (int_of (ptime * 1000))
    +:+ "ms]: " +:+ str_int (status_code response) +:+ "-"
    +:+ url_str (req_url request).

(** The middleware [extra_process(request, call_next)]; [site] is where its
    [logger.info] is called from. *)
Definition extra_process (site : CallSite) (request : Request)
    (call_next : Request -> Coro AppE Response) : Coro MwE Response :=
  start_time ← perform (InApp TimeTime);
  request_id ←
    match headers_get (req_headers request) "x-request-id" with
    | Some x => mret x
    | None => bs ← perform (Urandom 16); mret (uuid4_hex bs)
    end;
  perform (CtxSet request_id);;
  response ← lift (call_next request);
  now ← perform (InApp TimeTime);
  let ptime := (now - start_time)%Q in
  perform (InApp (Log (info_call site
                         (finished_message ptime response request))));;
  mret response.

(** The route [root()] of [api/chat.py]. *)
Definition root (site : CallSite) : Coro AppE Response :=
  perform Await;;
  perform (Log (info_call site "hello world"));;
  mret (mkResponse 200 [("message", "Hello World")]).

(** ** Interleaved requests *)

(** The requests in flight on one worker, by task. *)
Definition sched_step (t : nat)
    (s : gmap nat (Coro MwE Response) * World)
  : gmap nat (Coro MwE Response) * World :=
  match s.1 !! t with
  | None => s
  | Some c => let '(c', w') := step_mw c t s.2 in (<[t := c']> s.1, w')
  end.

(** The lines a step added to the sinks' queues. *)
Definition new_lines (before after : World) : list Message :=
  drop (length (w_out before)) (w_out after).

(** A schedule names the task that moves at each step. It may switch tasks
    between any two operations, so it covers every cooperative schedule,
    which switches at suspension points only. [exec] is the state a schedule
    leads to, [exec_trace] the lines it produces, each with the task that
    emitted it. *)
Fixpoint exec (sched : list nat) (s : gmap nat (Coro MwE Response) * World)
  : gmap nat (Coro MwE Response) * World :=
  match sched with
  | [] => s
  | t :: sched' => exec sched' (sched_step t s)
  end.

Fixpoint exec_trace (sched : list nat)
    (s : gmap nat (Coro MwE Response) * World) : list (nat * Message) :=
  match sched with
  | [] => []
  | t :: sched' =>
      map (pair t) (new_lines s.2 (sched_step t s).2)
        ++ exec_trace sched' (sched_step t s)
  end.

(** ** The stated line format *)

(** A field as a sink shows it: wrapped in its colour on the console, bare in
    a file. *)
Definition paint (colorize : bool) (lv : Level) (t : Tag) (s : string)
  : string :=
  if colorize then ansi_open lv t +:+ s +:+ ansi_reset else s.

(** [YYYY-MM-DD HH:mm:ss.SSS]: zero-padded fields, milliseconds last. *)
Definition timestamp_ms (t : DateTime) : string :=
  zfill 4 (dec (dt_year t)) +:+ "-" +:+ zfill 2 (dec (dt_month t)) +:+ "-"
    +:+ zfill 2 (dec (dt_day t)) +:+ " " +:+ zfill 2 (dec (dt_hour t))
    +:+ ":" +:+ zfill 2 (dec (dt_minute t)) +:+ ":"
    +:+ zfill 2 (dec (dt_second t)) +:+ "."
    +:+ zfill 3 (dec (dt_microsecond t / 1000)).

(** The line of the external interface,
    [| time | level | correlation id | process [pid]:thread | name:function:line - message |],
    with the level centred in 8 columns and the correlation id left-justified
    in 32. *)
Definition spec_line (p : Tag -> string -> string)
    (time level traceid process thread name function line message : string)
  : string :=
  "| " +:+ p TagGreen time +:+ " | "
    +:+ p TagLevel (center 8 level) +:+ " | "
    +:+ p TagLevel (ljust 32 traceid) +:+ " | "
    +:+ "process [" +:+ p TagCyan process +:+ "]:" +:+ p TagCyan thread
    +:+ " | " +:+ p TagCyan name +:+ ":" +:+ p TagCyan function +:+ ":"
    +:+ p TagCyan line +:+ " - " +:+ p TagLevel message +:+ " |".

(** The stated line for a record whose correlation id is [traceid]. *)
Definition record_line (colorize : bool) (r : LogRecord) (traceid : string)
  : string :=
  spec_line (paint colorize (r_level r)) (timestamp_ms (r_time r))
    (lv_name (r_level r)) traceid (dec (r_process r)) (dec (r_thread r))
    (r_name r) (r_function r) (dec (r_line r)) (r_message r).

(** A line carries [x]: the record it was rendered from holds [x], and
    nothing else, in its extra fields, and its text is the stated line with
    [x] in the correlation-id field. *)
Definition carries (x : string) (m : Message) : Prop :=
  r_extra (m_record m) = {[ "traceid" := x ]}
  /\ exists colorize, m_text m = record_line colorize (m_record m) x.

(** ** The sinks [setup_logging] registers *)

Definition console_handler (st : Settings) : Handler :=
  mkHandler Stdout log_format (if DEBUG st then 10 else 20) (Some _filter)
    true true true true None None None None.

Definition file_handler (st : Settings) (prefix : string) (levelno : Z)
  : Handler :=
  mkHandler (FileSink (BASE_DIR st ++ ["logs"]) prefix) log_format levelno
    (Some _filter) false true true true
    (Some (LOG_ROTATION st)) (Some (LOG_RETENTION st))
    (Some (LOG_COMPRESSION st)) (Some "utf-8").

Definition general_handler (st : Settings) : Handler :=
  file_handler st "" 20.
Definition error_handler (st : Settings) : Handler :=
  file_handler st "error_" 40.

(** The pipeline is configured: its handlers are the three sinks, in order. *)
Definition configured (st : Settings) (c : Core) : Prop :=
  map snd (handlers c)
  = [console_handler st; general_handler st; error_handler st].

(** A handler that filters with [_filter] and formats with [log_format]. *)
Definition ours (h : Handler) : Prop :=
  h_filter h = Some _filter /\ h_format h = log_format.

(** The lines a handler received. *)
Definition lines_of (id : nat) (lines : list Message) : list Message :=
  filter (fun m => m_handler m = id) lines.

(** ** The middleware, phase by phase *)

(** The correlation id the middleware chooses in [w]. *)
Definition request_id_of (request : Request) (w : World) : string :=
  match headers_get (req_headers request) "x-request-id" with
  | Some x => x
  | None =>
      uuid4_hex (map (fun i => w_entropy w (w_drawn w + i)) (seq 0 16))
  end.

(** The process as [call_next] finds it: the start time read, the id chosen
    and installed in the slot of task [t]. *)
Definition entered (t : nat) (request : Request) (w : World) : World :=
  let w1 := tick w in
  let w2 :=
    match headers_get (req_headers request) "x-request-id" with
    | Some _ => w1
    | None => draw 16 w1
    end in
  set_ctx t (request_id_of request w) w2.

(** The completion call made once [call_next] has returned [response] in
    [w1], the handling having started in [w]. *)
Definition completion_call (site : CallSite) (request : Request)
    (response : Response) (w w1 : World) : LogCall :=
  info_call site
    (finished_message (w_clock w1 (w_ticks w1) - w_clock w (w_ticks w))%Q
       response request).

(** ** Notions used in the statements *)

(** [w'] comes after [w] in the handling of one request whose lines carry
    [x]: the pipeline, the correlation slots and the clock are those of [w],
    no reading of the clock was given back, and the lines added carry [x]. *)
Definition extends (x : string) (w w' : World) : Prop :=
  w_core w' = w_core w
  /\ w_ctx w' = w_ctx w
  /\ w_clock w' = w_clock w
  /\ w_ticks w <= w_ticks w'
  /\ exists lines, w_out w' = w_out w ++ lines /\ Forall (carries x) lines.

(** [sub] occurs in [s]. *)
Definition contains (sub s : string) : Prop :=
  exists pre post, s = pre +:+ sub +:+ post.

(** A coroutine that never writes the correlation slot. *)
Fixpoint quiet {A : Type} (c : Coro MwE A) : Prop :=
  match c with
  | Ret _ | Raise _ => True
  | Vis op k =>
      match op with
      | CtxSet _ => False
      | _ => True
      end
      /\ forall x, quiet (k x)
  end.

(** A coroutine that logs nothing before it writes the correlation slot,
    writes a value satisfying [P], and never writes it again. *)
Fixpoint pending {A : Type} (P : string -> Prop) (c : Coro MwE A) : Prop :=
  match c with
  | Ret _ | Raise _ => True
  | Vis op k =>
      match op in MwE X return (X -> Coro MwE A) -> Prop with
      | CtxSet v => fun k => P v /\ quiet (k tt)
      | InApp (Log _) | InApp (StdLog _) => fun _ => False
      | _ => fun k => forall x, pending P (k x)
      end k
  end.

(** The state of task [t] in a pool: before its id is chosen ([None]) it is
    pending, afterwards ([Some x]) it is quiet and its slot holds [x]. *)
Definition task_inv (P : string -> Prop) (t : nat) (x : option string)
    (s : gmap nat (Coro MwE Response) * World) : Prop :=
  match s.1 !! t, x with
  | None, _ => True
  | Some c, None => pending P c
  | Some c, Some x => P x /\ quiet c /\ w_ctx s.2 !! t = Some x
  end.

(** A request in flight: where its middleware logs from, the request, and
    the application behind [call_next]. *)
Record InFlight := mkInFlight {
  if_site : CallSite;
  if_request : Request;
  if_call_next : Request -> Coro AppE Response
}.

Definition start (r : InFlight) : Coro MwE Response :=
  extra_process (if_site r) (if_request r) (if_call_next r).

(** The id a request asks for, if it asks for one. *)
Definition asks (r : InFlight) (x : string) : Prop :=
  forall X, headers_get (req_headers (if_request r)) "x-request-id" = Some X
            -> x = X.

(** ** A concrete deployment *)

Definition example_time : DateTime := mkDateTime 2024 3 7 9 5 2 45678.

Definition example_settings : Settings := settings ["srv"; "ai_agent"].

Definition middleware_site : CallSite :=
  mkSite example_time 4242 140001
    (mkFrame "api/app.py" "api.app" "extra_process" 34).

Definition route_site : CallSite :=
  mkSite example_time 4242 140001
    (mkFrame "api/chat.py" "api.chat" "root" 10).

Definition setup_site : CallSite :=
  mkSite example_time 4242 140001
    (mkFrame "config/log.py" "config.log" "setup_logging" 150).

(** The process before [setup_logging]: no sink, an empty disk, a clock that
    advances by a quarter of a second per reading. *)
Definition fresh_world : World :=
  mkWorld (mkCore [] 1) (mkStdLogging (mkStdLogger [] true 30) ∅) ∅ ∅ []
    (fun n => inject_Z (Z.of_nat n) * (1 # 4))%Q 0
    (fun n => if Nat.even n then Byte.x2a else Byte.xc7) 0.

(** The process once [setup_logging] has run in task 0. *)
Definition served_world : World :=
  match setup_logging example_settings setup_site 0 fresh_world with
  | inr w => w
  | inl _ => fresh_world
  end.

Definition tagged_request : Request :=
  mkRequest [("host", "localhost:8000"); ("x-request-id", "abc123")]
    (mkURL "http" "localhost:8000" "/" "").

Definition plain_request : Request :=
  mkRequest [("host", "localhost:8000")]
    (mkURL "http" "localhost:8000" "/" "").

Definition route (_ : Request) : Coro AppE Response := root route_site.

(** An application that fails after logging. *)
Definition failing_route (_ : Request) : Coro AppE Response :=
  perform (Log (info_call route_site "about to fail"));;
  Raise (AppError "handler failed").

(** A record of the standard module at a level loguru has no name for,
    logged from [uvicorn/server.py] through three frames of [logging]. *)
Definition audit_record : StdRecord :=
  mkStd "AUDIT" 35 "configuration reloaded" None example_time 4242 140001
    [ mkFrame "config/log.py" "config.log" "emit" 48;
      mkFrame logging_file "logging" "handle" 978;
      mkFrame logging_file "logging" "callHandlers" 1706;
      mkFrame logging_file "logging" "handle" 1644;
      mkFrame logging_file "logging" "_log" 1634;
      mkFrame logging_file "logging" "log" 1559;
      mkFrame "uvicorn/server.py" "uvicorn.server" "serve" 84 ]
    2.

Definition warning_record : StdRecord :=
  mkStd "WARNING" 30 "slow client" None example_time 4242 140001
    (sr_stack audit_record) 2.

(** A completion line of [request] is among the lines its handling added. *)
Definition completion_logged (site : CallSite) (request : Request)
    (call_next : Request -> Coro AppE Response) (t : nat) (w : World)
  : Prop :=
  exists m ptime response,
    m ∈ new_lines w (run_middleware (extra_process site request call_next) t w).2
    /\ r_message (m_record m) = finished_message ptime response request.

(** The served process with a wall clock that is set back by a second after
    every reading: [time.time()] gives 10, then 9. *)
Definition stepped_back_world : World :=
  mkWorld (w_core served_world) (w_std served_world) (w_fs served_world)
    (w_ctx served_world) (w_out served_world)
    (fun n => 10 - inject_Z (Z.of_nat n))%Q 0
    (w_entropy served_world) (w_drawn served_world).

(** Two requests in flight on one worker. *)
Definition two_requests : gmap nat InFlight :=
  {[ 1 := mkInFlight middleware_site tagged_request route;
     2 := mkInFlight middleware_site plain_request route ]}.

(** ** The rest of [api/app.py] *)

(** [lifespan(app)] up to its [yield]: what runs while the server starts. *)
Definition lifespan_startup (site : CallSite) : Coro AppE unit :=
  perform (Log (info_call site "Starting up..."));;
  perform Await;;
  mret tt.

(** [lifespan(app)] after its [yield]: what runs while the server stops. *)
Definition lifespan_shutdown (site : CallSite) : Coro AppE unit :=
  perform (Log (info_call site "Shutting down..."));;
  mret tt.

(** ** Further notions used in the statements *)

(** Every entry of the file system lies in a directory. *)
Definition wf_fs (fs : gmap (list string) Node) : Prop :=
  forall (p : list string) (x : string) (n : Node),
    fs !! (p ++ [x]) = Some n -> path_isdir p fs = true.

(** The least severity the console sink lets through. *)
Definition console_level (st : Settings) : Z :=
  if DEBUG st then 10%Z else 20%Z.

(** The frames of [logging] between [emit] and the code that logged. *)
Definition in_logging (f : Frame) : Prop := f_filename f = logging_file.

(** The pipeline [setup_logging] installs when [n] handlers were ever
    registered before. *)
Definition installed_core (st : Settings) (n : nat) : Core :=
  mkCore [(n, console_handler st); (S n, general_handler st);
          (S (S n), error_handler st)]
    (S (S (S n))).

(** The standard logging configuration [setup_logging] leaves. *)
Definition installed_std (s : StdLogging) : StdLogging :=
  foldl redirect_logger (basicConfig [InterceptHandler] 0 s)
    third_party_loggers.

(** The record of the closing [logger.info] of [setup_logging]. *)
Definition init_record (site : CallSite) : LogRecord :=
  build_record (mkLevel "INFO" 20 [1%N])
    (info_call site "init logger success").

(** A disk where a regular file has the name of the log directory, and one
    where a regular file has the name of one of its ancestors. *)
Definition blocked_fs : gmap (list string) Node :=
  <[ ["srv"; "ai_agent"; "logs"] := File ]>
    (<[ ["srv"; "ai_agent"] := Dir ]> (<[ ["srv"] := Dir ]> ∅)).

Definition shadowed_fs : gmap (list string) Node :=
  <[ ["srv"; "ai_agent"] := File ]> (<[ ["srv"] := Dir ]> ∅).

(** [warning_record] as an interpreter hands it over whose
    [logging.currentframe()] is the frame of [emit] itself. *)
Definition warning_record_direct : StdRecord :=
  mkStd "WARNING" 30 "slow client" None example_time 4242 140001
    (sr_stack audit_record) 0.

(** A record whose stack holds nothing but frames of [logging]. *)
Definition stray_record : StdRecord :=
  mkStd "WARNING" 30 "slow client" None example_time 4242 140001
    [ mkFrame logging_file "logging" "handle" 978;
      mkFrame logging_file "logging" "callHandlers" 1706 ]
    0.

(** A record with a name loguru does not know and a negative severity. *)
Definition negative_record : StdRecord :=
  mkStd "BELOW" (-5) "ignored" None example_time 4242 140001
    (sr_stack audit_record) 2.

(** What a sink of [setup_logging] with minimum level [gate] and handler id
    [id] receives of a record: nothing below its level, else the stated
    line. *)
Definition sink_lines (gate : Z) (id : nat) (colorize : bool)
    (r : LogRecord) (x : string) : list Message :=
  if (lv_no (r_level r) <? gate)%Z then []
  else [mkMessage id (record_line colorize r x) r].



(** The parts of the process no request may change: the pipeline, the
    configuration of the standard module, the disk and the sources of time
    and entropy. *)
Definition same_installation (w w' : World) : Prop :=
  w_core w' = w_core w
  /\ w_std w' = w_std w
  /\ w_fs w' = w_fs w
  /\ w_clock w' = w_clock w
  /\ w_entropy w' = w_entropy w.

(** The record of [logger.info(message)] called at [site], once [_filter]
    has stored the correlation id [x] in it. *)
Definition info_record (site : CallSite) (message x : string) : LogRecord :=
  set_extra {[ "traceid" := x ]}
    (build_record (mkLevel "INFO" 20 [1%N]) (info_call site message)).

(** Its two lines: on the console [i1], coloured, and in the general file
    [i2]. *)
Definition info_lines (i1 i2 : nat) (site : CallSite) (message x : string)
  : list Message :=
  [ mkMessage i1 (record_line true (info_record site message x) x)
      (info_record site message x);
    mkMessage i2 (record_line false (info_record site message x) x)
      (info_record site message x) ].

(** The bits a version-4 UUID does not take from the random bytes. *)
Definition forced_bits : list N := [62; 63; 76; 77; 78; 79]%N.

(** The 16 bytes [uuid4] reads in [w]. *)
Definition next_bytes (w : World) : list Byte.byte :=
  map (fun i => w_entropy w (w_drawn w + i)) (seq 0 16).

(** ** Facts about text *)

Lemma append_nil_l (b : string) : "" +:+ b = b.
Proof. reflexivity. Qed.

Lemma append_cons (x : ascii) (a b : string) :
  String x a +:+ b = String x (a +:+ b).
Proof. reflexivity. Qed.

Lemma append_nil_r (a : string) : a +:+ "" = a.
Proof. induction a as [|x a IH]; [done |]. rewrite append_cons. by f_equal. Qed.

Lemma length_append (a b : string) :
  String.length (a +:+ b) = String.length a + String.length b.
Proof.
  induction a as [|c a IH]; [done |].
  rewrite append_cons. simpl. by rewrite IH.
Qed.

Lemma append_assoc (a b c : string) : (a +:+ b) +:+ c = a +:+ (b +:+ c).
Proof.
  induction a as [|x a IH]; [done |]. rewrite !append_cons. by f_equal.
Qed.

Lemma length_repeat_char (c : ascii) (n : nat) :
  String.length (repeat_char c n) = n.
Proof. induction n as [|n IH]; simpl; [done | by rewrite IH]. Qed.

Lemma format_str_length (sp : FormatSpec) (s : string) :
  String.length (format_str sp s) = Nat.max (spec_width sp) (String.length s).
Proof.
  unfold format_str. rewrite !length_append, !length_repeat_char.
  destruct (spec_align sp); try lia.
  pose proof (Nat.Div0.div_le_upper_bound (spec_width sp - String.length s) 2
                (spec_width sp - String.length s)).
  assert ((spec_width sp - String.length s) / 2
          <= spec_width sp - String.length s) by (apply Nat.Div0.div_le_upper_bound; lia).
  lia.
Qed.













(** Reading the digits back gives the number: no digit is lost. *)
Lemma hex_val_digit (d : N) : (d < 16)%N -> hex_val (digit_char d) = d.
Proof.
  intros Hd. destruct d as [|p]; [reflexivity |].
  do 4 (destruct p as [p|p|]; try reflexivity); lia.
Qed.

Lemma of_hex_go_app (a b : string) (v : N) :
  of_hex_go (a +:+ b) v = of_hex_go b (of_hex_go a v).
Proof.
  revert v. induction a as [|c a IH]; intros v; [done |].
  rewrite append_cons. simpl. apply IH.
Qed.

Lemma of_hex_to_base_go (fuel : nat) :
  forall (n : N) (acc : string),
    (n < 16 ^ N.of_nat fuel)%N ->
    exists k : N,
      forall v, of_hex_go (to_base_go 16 fuel n acc) v
                = of_hex_go acc (v * 16 ^ k + n)%N.
Proof.
  induction fuel as [|fuel IH]; intros n acc Hn.
  - exists 0%N. intros v. simpl in *. f_equal. lia.
  - simpl to_base_go.
    assert (hex_val (digit_char (n mod 16)) = (n mod 16)%N) as Hd
      by (apply hex_val_digit, N.mod_lt; lia).
    destruct (N.eqb_spec (n / 16) 0) as [Hz|Hz].
    + exists 1%N. intros v. simpl. rewrite Hd. f_equal.
      pose proof (N.div_mod n 16 ltac:(lia)). lia.
    + destruct (IH (n / 16)%N (String (digit_char (n mod 16)) acc))
        as [k Hk].
      { apply N.Div0.div_lt_upper_bound.
        replace (N.of_nat (S fuel)) with (N.succ (N.of_nat fuel)) in Hn by lia.
        by rewrite N.pow_succ_r' in Hn. }
      exists (N.succ k). intros v. rewrite Hk. simpl. rewrite Hd. f_equal.
      rewrite N.pow_succ_r'. pose proof (N.div_mod n 16 ltac:(lia)). lia.
Qed.

Lemma of_hex_hex (n : N) : of_hex (hex n) = n.
Proof.
  unfold of_hex, hex, to_base.
  destruct (of_hex_to_base_go (S (N.to_nat (N.log2 n))) n "") as [k Hk].
  - destruct (N.eq_dec n 0%N) as [->|Hn]; [reflexivity |].
    pose proof (N.log2_spec n ltac:(lia)) as [_ Hlt].
    eapply N.lt_le_trans; [exact Hlt |].
    replace (N.of_nat (S (N.to_nat (N.log2 n)))) with (N.succ (N.log2 n))
      by lia.
    apply N.pow_le_mono_l. lia.
  - rewrite Hk. simpl. lia.
Qed.

Lemma of_hex_go_zeros (k : nat) (v : N) :
  of_hex_go (repeat_char "0" k) v = (v * 16 ^ N.of_nat k)%N.
Proof.
  revert v. induction k as [|k IH]; intros v.
  - simpl. lia.
  - simpl of_hex_go. rewrite IH.
    replace (N.of_nat (S k)) with (N.succ (N.of_nat k)) by lia.
    rewrite N.pow_succ_r'. change (hex_val "0") with 0%N. lia.
Qed.

Lemma of_hex_zfill (w : nat) (s : string) : of_hex (zfill w s) = of_hex s.
Proof.
  unfold of_hex, zfill, format_str. simpl.
  rewrite Nat.sub_diag. change (repeat_char "0" 0) with "".
  rewrite append_nil_r, of_hex_go_app, of_hex_go_zeros. by simpl.
Qed.

Lemma uuid4_hex_value (bs : list Byte.byte) :
  of_hex (uuid4_hex bs) = uuid4_int bs.
Proof. unfold uuid4_hex. by rewrite of_hex_zfill, of_hex_hex. Qed.

(** ** Facts about the pipeline *)

Section Pipeline.

(** The settings in force and the value of the correlation slot in the
    context of the logging call. *)
Context (st : Settings) (cur : option string).

Lemma format_time_timestamp (t : DateTime) :
  format_time [YYYY; TLit "-"; MM; TLit "-"; DD; TLit " ";
               HH; TLit ":"; mm; TLit ":"; ss; TLit "."; SSS] t
  = timestamp_ms t.
Proof.
  unfold timestamp_ms. cbn [format_time time_tok]. by rewrite append_nil_r.
Qed.

(** The formatter of [log_format] yields the stated line whenever the record
    has a correlation id. *)
Lemma render_log_format (colorize : bool) (r : LogRecord) (x : string) :
  r_extra r !! "traceid" = Some x ->
  render colorize log_format r = Some (record_line colorize r x).
Proof.
  intros Hx. unfold log_format.
  cbn [render render_item field_text]. rewrite Hx, format_time_timestamp.
  f_equal. unfold record_line, spec_line, paint, ljust, center.
  destruct colorize; rewrite ?append_assoc, ?append_nil_l; reflexivity.
Qed.

Lemma _filter_extra (r : LogRecord) :
  r_extra (_filter cur r).1
  = {[ "traceid" := request_id_context_get "miss_traceid" cur ]}.
Proof. reflexivity. Qed.

(** A handler of [setup_logging] either drops a record at its level gate or
    hands its sink the stated line. *)
Lemma handler_emit_filtered (id : nat) (h : Handler) (r : LogRecord) :
  h_filter h = Some _filter -> h_format h = log_format ->
  let x := request_id_context_get "miss_traceid" cur in
  let r' := set_extra {[ "traceid" := x ]} r in
  handler_emit cur id h r
  = if (lv_no (r_level r) <? h_levelno h)%Z then (r, [])
    else (r', [mkMessage id (record_line (h_colorize h) r' x) r']).
Proof.
  intros Hf Hfmt x r'. unfold handler_emit. rewrite Hf, Hfmt.
  destruct (lv_no (r_level r) <? h_levelno h)%Z; [done |].
  unfold _filter. fold x. fold r'.
  rewrite (render_log_format _ r' x); [done |].
  unfold r'. simpl. by rewrite lookup_singleton_eq.
Qed.

Lemma emit_all_carries (hs : list (nat * Handler)) :
  Forall (fun ih => ours ih.2) hs ->
  forall r, Forall (carries (request_id_context_get "miss_traceid" cur))
              (emit_all cur hs r).
Proof.
  induction 1 as [|[id h] hs [Hf Hfmt] _ IH]; intros r; simpl; [constructor |].
  rewrite handler_emit_filtered by done.
  destruct (lv_no (r_level r) <? h_levelno h)%Z; simpl; [apply IH |].
  constructor; [| apply IH].
  split; simpl; [done | by eexists].
Qed.

Lemma configured_ours (c : Core) :
  configured st c -> Forall (fun ih => ours ih.2) (handlers c).
Proof.
  unfold configured. intros Hc.
  assert (Forall ours (map snd (handlers c))) as H.
  { rewrite Hc. repeat constructor. }
  by rewrite Forall_map in H.
Qed.

Lemma logger_log_carries (c : Core) (call : LogCall)
    (lines : list Message) :
  configured st c -> logger_log cur c call = inr lines ->
  Forall (carries (request_id_context_get "miss_traceid" cur)) lines.
Proof.
  intros Hc%configured_ours. unfold logger_log.
  destruct (handlers c) as [|ih hs] eqn:Hhs.
  - intros [= <-]. constructor.
  - destruct (resolve_level (lc_level call)); [done |].
    intros [= <-]. by apply (emit_all_carries (ih :: hs)).
Qed.

Lemma emit_carries (c : Core) (record : StdRecord)
    (lines : list Message) :
  configured st c -> emit cur c record = inr lines ->
  Forall (carries (request_id_context_get "miss_traceid" cur)) lines.
Proof.
  intros Hc. unfold emit.
  destruct (emit_depth _ _); [done |].
  destruct (sr_stack record !! _); [| done].
  by apply logger_log_carries.
Qed.

(** [logger.info] never raises. *)
Lemma logger_log_info (c : Core) (site : CallSite) (message : string) :
  logger_log cur c (info_call site message)
  = inr (emit_all cur (handlers c)
           (mkRecord (s_time site) (mkLevel "INFO" 20 [1%N]) ∅
              (s_process site) (s_thread site) (f_name (s_frame site))
              (f_function (s_frame site)) (f_line (s_frame site)) message
              None)).
Proof. unfold logger_log. by destruct (handlers c). Qed.

Lemma logger_log_resolved (c : Core) (call : LogCall) (lv : Level) :
  resolve_level (lc_level call) = inr lv ->
  logger_log cur c call = inr (emit_all cur (handlers c) (build_record lv call)).
Proof. intros Hlv. unfold logger_log. rewrite Hlv. by destruct (handlers c). Qed.

End Pipeline.

(** ** Facts about running coroutines *)

Lemma extends_refl (x : string) (w : World) : extends x w w.
Proof.
  repeat split; try done. exists []. by rewrite app_nil_r.
Qed.

Lemma extends_trans (x : string) (w1 w2 w3 : World) :
  extends x w1 w2 -> extends x w2 w3 -> extends x w1 w3.
Proof.
  intros (Hc1 & Hx1 & Hk1 & Ht1 & l1 & Ho1 & Hl1)
         (Hc2 & Hx2 & Hk2 & Ht2 & l2 & Ho2 & Hl2).
  repeat split; try congruence; [lia |].
  exists (l1 ++ l2). split; [| by apply Forall_app].
  by rewrite Ho2, Ho1, app_assoc.
Qed.

Create HintDb world discriminated.
#[global] Hint Resolve extends_refl : world.

Lemma logged_extends {X : Type} (x : string) (a : X)
    (res : Exn + list Message) (w : World) :
  (forall lines, res = inr lines -> Forall (carries x) lines) ->
  extends x w (logged a res w).2.
Proof.
  intros H. destruct res as [e|lines]; simpl; auto with world.
  repeat split; try done. exists lines. split; [done | by apply H].
Qed.

Lemma handle_app_extends (st : Settings) {X : Type} (op : AppE X) (t : nat)
    (w : World) :
  configured st (w_core w) ->
  extends (request_id_context_get "miss_traceid" (w_ctx w !! t)) w
    (handle_app op t w).2.
Proof.
  intros Hc. destruct op; simpl.
  - apply logged_extends. intros lines. by apply logger_log_carries with (st := st).
  - apply logged_extends. intros lines. by apply emit_carries with (st := st).
  - apply extends_refl.
  - repeat split; try done; [simpl; lia |]. exists []. by rewrite app_nil_r.
Qed.

Lemma run_downstream_extends (st : Settings) {A : Type} (c : Coro AppE A) (t : nat) :
  forall w, configured st (w_core w) ->
    extends (request_id_context_get "miss_traceid" (w_ctx w !! t)) w
      (run_downstream c t w).2.
Proof.
  unfold run_downstream.
  induction c as [a|e|X op k IH]; intros w Hc; simpl; auto with world.
  pose proof (handle_app_extends st op t w Hc) as Hop.
  destruct (handle_app op t w) as [[e|x] w'] eqn:Hh; simpl in *; [done |].
  eapply extends_trans; [exact Hop |].
  destruct Hop as (Hcore & Hctx & _).
  rewrite <- Hctx. apply IH. by rewrite Hcore.
Qed.

Lemma run_bind {E : Type -> Type}
    (handle : forall X : Type, E X -> nat -> World -> (Exn + X) * World)
    {A B : Type} (c : Coro E A) (f : A -> Coro E B) (t : nat) :
  forall w,
    run handle (coro_bind c f) t w
    = match run handle c t w with
      | (Returned a, w') => run handle (f a) t w'
      | (Raised e, w') => (Raised e, w')
      end.
Proof.
  induction c as [a|e|X op k IH]; intros w; simpl; [done | done |].
  destruct (handle X op t w) as [[e|x] w']; [done | apply IH].
Qed.

Lemma run_lift {A : Type} (c : Coro AppE A) (t : nat) :
  forall w, run_middleware (lift c) t w = run_downstream c t w.
Proof.
  unfold run_middleware, run_downstream.
  induction c as [a|e|X op k IH]; intros w; simpl; [done | done |].
  destruct (handle_app op t w) as [[e|x] w']; [done | apply IH].
Qed.

(** The run of the middleware: [call_next] is entered with the id installed;
    if it raises, so does the middleware, at once; if it returns, the clock
    is read and the completion call made. *)
Lemma extra_process_run (site : CallSite) (request : Request)
    (call_next : Request -> Coro AppE Response) (t : nat) (w : World) :
  run_middleware (extra_process site request call_next) t w
  = match run_downstream (call_next request) t (entered t request w) with
    | (Raised e, w1) => (Raised e, w1)
    | (Returned response, w1) =>
        (Returned response,
         append_out
           (emit_all (w_ctx w1 !! t) (handlers (w_core w1))
              (mkRecord (s_time site) (mkLevel "INFO" 20 [1%N]) ∅
                 (s_process site) (s_thread site) (f_name (s_frame site))
                 (f_function (s_frame site)) (f_line (s_frame site))
                 (lc_message (completion_call site request response w w1))
                 None))
           (tick w1))
    end.
Proof.
  assert (forall w0 start_time,
    run (@handle_mw)
      (coro_bind (lift (call_next request))
         (fun response =>
            Vis (InApp TimeTime)
              (fun now =>
                 Vis (InApp (Log (info_call site
                                    (finished_message (now - start_time)
                                       response request))))
                   (fun _ => Ret response))))
      t w0
    = match run_downstream (call_next request) t w0 with
      | (Raised e, w1) => (Raised e, w1)
      | (Returned response, w1) =>
          (Returned response,
           append_out
             (emit_all (w_ctx w1 !! t) (handlers (w_core w1))
                (mkRecord (s_time site) (mkLevel "INFO" 20 [1%N]) ∅
                   (s_process site) (s_thread site) (f_name (s_frame site))
                   (f_function (s_frame site)) (f_line (s_frame site))
                   (finished_message (w_clock w1 (w_ticks w1) - start_time)
                      response request)
                   None))
             (tick w1))
      end) as Hrest.
  { intros w0 start_time. rewrite run_bind.
    fold (@run_middleware Response). rewrite run_lift.
    destruct (run_downstream (call_next request) t w0) as [[resp|e] w1]; [| done].
    unfold run_middleware. simpl. by rewrite logger_log_info. }
  unfold run_middleware, extra_process, entered, request_id_of.
  unfold mbind, coro_mbind, mret, coro_mret. simpl.
  destruct (headers_get (req_headers request) "x-request-id") as [x|]; simpl;
    apply Hrest.
Qed.

(** ** Facts about interleaved steps *)

Lemma quiet_lift {A : Type} (c : Coro AppE A) : quiet (lift c).
Proof. induction c as [a|e|X op k IH]; simpl; auto. Qed.

Lemma quiet_bind {A B : Type} (c : Coro MwE A) (f : A -> Coro MwE B) :
  quiet c -> (forall a, quiet (f a)) -> quiet (coro_bind c f).
Proof.
  intros Hc Hf. induction c as [a|e|X op k IH]; simpl in *; auto.
  destruct Hc as [Hop Hk]. split; [done |]. intros x. by apply IH.
Qed.

(** The middleware logs nothing before it has installed the id, installs the
    id the request asks for, and installs nothing afterwards. *)
Lemma start_pending (r : InFlight) : pending (asks r) (start r).
Proof.
  unfold start, extra_process, asks.
  unfold mbind, coro_mbind, mret, coro_mret. simpl. intros start_time.
  destruct (headers_get (req_headers (if_request r)) "x-request-id")
    as [x|] eqn:Hh; simpl.
  - split; [by intros X [= ->] |].
    apply quiet_bind; [apply quiet_lift |]. intros resp. simpl. auto.
  - intros bs. split; [done |].
    apply quiet_bind; [apply quiet_lift |]. intros resp. simpl. auto.
Qed.

Lemma handle_mw_frame {X : Type} (op : MwE X) (t : nat) (w : World) :
  w_core (handle_mw op t w).2 = w_core w
  /\ forall t', t' <> t ->
       w_ctx (handle_mw op t w).2 !! t' = w_ctx w !! t'.
Proof.
  destruct op as [X e|v|n]; simpl.
  - destruct e; simpl; try done;
      match goal with |- context [logged _ ?res _] => by destruct res end.
  - split; [done |]. intros t' Ht. unfold request_id_context_set.
    by rewrite lookup_insert_ne.
  - done.
Qed.

Lemma step_mw_frame {A : Type} (c : Coro MwE A) (t : nat) (w : World) :
  w_core (step_mw c t w).2 = w_core w
  /\ forall t', t' <> t -> w_ctx (step_mw c t w).2 !! t' = w_ctx w !! t'.
Proof.
  destruct c as [a|e|X op k]; simpl; try done.
  pose proof (handle_mw_frame op t w) as H.
  by destruct (handle_mw op t w) as [[e|x] w'].
Qed.

Lemma step_mw_quiet (st : Settings) {A : Type} (c : Coro MwE A) (t : nat)
    (w : World) :
  configured st (w_core w) -> quiet c ->
  quiet (step_mw c t w).1
  /\ extends (request_id_context_get "miss_traceid" (w_ctx w !! t)) w
       (step_mw c t w).2.
Proof.
  intros Hc Hq. destruct c as [a|e|X op k]; simpl; auto with world.
  destruct Hq as [Hop Hk].
  assert (extends (request_id_context_get "miss_traceid" (w_ctx w !! t)) w
            (handle_mw op t w).2) as Hext.
  { destruct op as [X e|v|n]; simpl; [by apply handle_app_extends with (st := st) | done |].
    repeat split; try done. exists []. by rewrite app_nil_r. }
  destruct (handle_mw op t w) as [[e|x] w']; simpl in *; auto.
Qed.

Lemma step_mw_pending {A : Type} (P : string -> Prop) (c : Coro MwE A)
    (t : nat) (w : World) :
  pending P c ->
  w_out (step_mw c t w).2 = w_out w
  /\ (pending P (step_mw c t w).1
      \/ exists x, P x /\ quiet (step_mw c t w).1
                   /\ w_ctx (step_mw c t w).2 !! t = Some x).
Proof.
  intros Hp. destruct c as [a|e|X op k]; simpl; [by auto .. |].
  destruct op as [X e|v|n]; simpl in *.
  - destruct e; simpl in *; try done; split; auto.
  - destruct Hp as [HP Hq]. split; [done |]. right. exists v.
    repeat split; try done. unfold request_id_context_set.
    by rewrite lookup_insert_eq.
  - split; auto.
Qed.

Lemma new_lines_same (w w' : World) :
  w_out w' = w_out w -> new_lines w w' = [].
Proof. unfold new_lines. intros ->. by rewrite drop_all. Qed.

Lemma new_lines_extends (x : string) (w w' : World) :
  extends x w w' -> Forall (carries x) (new_lines w w').
Proof.
  intros (_ & _ & _ & _ & lines & Ho & Hl). unfold new_lines.
  by rewrite Ho, drop_app_length.
Qed.

Lemma sched_step_core (u : nat) (s : gmap nat (Coro MwE Response) * World) :
  w_core (sched_step u s).2 = w_core s.2.
Proof.
  unfold sched_step. destruct (s.1 !! u) as [c|]; [| done].
  pose proof (step_mw_frame c u s.2) as [H _].
  by destruct (step_mw c u s.2).
Qed.

Section Interleaving.

(** The settings in force, a task, and what is known of the id it takes. *)
Context (st : Settings) (P : string -> Prop) (t : nat).

(** Once a task has its id, every step keeps it, whoever moves. *)
Lemma sched_step_settled (u : nat) (x : string)
    (s : gmap nat (Coro MwE Response) * World) :
  configured st (w_core s.2) -> task_inv P t (Some x) s ->
  task_inv P t (Some x) (sched_step u s)
  /\ (u = t -> Forall (carries x) (new_lines s.2 (sched_step u s).2)).
Proof.
  intros Hc Hinv. unfold sched_step.
  destruct (s.1 !! u) as [c|] eqn:Hu.
  - pose proof (step_mw_frame c u s.2) as [_ Hframe].
    destruct (decide (u = t)) as [->|Hne].
    + unfold task_inv in Hinv. rewrite Hu in Hinv.
      destruct Hinv as (HP & Hq & Hx).
      pose proof (step_mw_quiet st c t s.2 Hc Hq) as [Hq' Hext].
      rewrite Hx in Hext. simpl in Hext.
      destruct (step_mw c t s.2) as [c' w'] eqn:Hs. simpl in *. split.
      * unfold task_inv. simpl. rewrite lookup_insert_eq.
        repeat split; try done.
        destruct Hext as (_ & -> & _). done.
      * intros _. by apply new_lines_extends.
    + destruct (step_mw c u s.2) as [c' w'] eqn:Hs. simpl in *.
      split; [| done]. unfold task_inv in *. simpl.
      rewrite lookup_insert_ne by done.
      destruct (s.1 !! t); [| done].
      destruct Hinv as (HP & Hq & Hx). repeat split; try done.
      by rewrite Hframe.
  - split; [done |]. intros _. by rewrite new_lines_same.
Qed.

Lemma trace_settled (x : string) (sched : list nat) :
  forall s, configured st (w_core s.2) -> task_inv P t (Some x) s ->
    task_inv P t (Some x) (exec sched s)
    /\ forall m, (t, m) ∈ exec_trace sched s -> carries x m.
Proof.
  induction sched as [|u sched IH]; intros s Hc Hinv; simpl.
  - split; [done |]. intros m Hm. by apply elem_of_nil in Hm.
  - pose proof (sched_step_settled u x s Hc Hinv) as [Hinv' Hnew].
    destruct (IH (sched_step u s)) as [Hend Hrest];
      [by rewrite sched_step_core | done |].
    split; [done |]. intros m Hm.
    apply elem_of_app in Hm as [Hm|Hm]; [| by apply Hrest].
    apply list_elem_of_fmap in Hm as (m' & [= -> ->] & Hm').
    specialize (Hnew eq_refl). rewrite Forall_forall in Hnew. by apply Hnew.
Qed.

(** A step leaves a task that has no id yet without one, or gives it one;
    either way the step adds no line of that task. *)
Lemma sched_step_pending (u : nat)
    (s : gmap nat (Coro MwE Response) * World) :
  task_inv P t None s ->
  (u = t -> new_lines s.2 (sched_step u s).2 = [])
  /\ (task_inv P t None (sched_step u s)
      \/ exists x, P x /\ task_inv P t (Some x) (sched_step u s)).
Proof.
  intros Hinv. unfold sched_step. destruct (s.1 !! u) as [c|] eqn:Hu.
  - destruct (decide (u = t)) as [->|Hne].
    + unfold task_inv in Hinv. rewrite Hu in Hinv.
      pose proof (step_mw_pending P c t s.2 Hinv) as [Hout Hcase].
      destruct (step_mw c t s.2) as [c' w'] eqn:Hs. simpl in *. split.
      * intros _. by apply new_lines_same.
      * unfold task_inv. simpl. rewrite lookup_insert_eq.
        destruct Hcase as [Hp|(x & HP & Hq & Hx)]; [by left |].
        right. by exists x.
    + pose proof (step_mw_frame c u s.2) as [_ Hframe].
      destruct (step_mw c u s.2) as [c' w'] eqn:Hs. simpl in *.
      split; [done |]. left. unfold task_inv in *. simpl.
      by rewrite lookup_insert_ne.
  - split; [| by left]. intros _. by apply new_lines_same.
Qed.

(** Before a task has its id it emits nothing, and the id it takes is the
    one every later line of it carries. *)
Lemma trace_pending (sched : list nat) :
  forall s, configured st (w_core s.2) -> task_inv P t None s ->
    (task_inv P t None (exec sched s)
     /\ forall m, (t, m) ∉ exec_trace sched s)
    \/ exists x, P x /\ task_inv P t (Some x) (exec sched s)
                 /\ forall m, (t, m) ∈ exec_trace sched s -> carries x m.
Proof.
  induction sched as [|u sched IH]; intros s Hc Hinv; simpl.
  - left. split; [done |]. intros m. apply not_elem_of_nil.
  - assert (configured st (w_core (sched_step u s).2)) as Hc'
      by by rewrite sched_step_core.
    destruct (sched_step_pending u s Hinv) as [Hnew Hnext].
    assert (forall m, (t, m) ∉ map (pair u) (new_lines s.2 (sched_step u s).2))
      as Hquiet.
    { intros m Hm.
      apply list_elem_of_fmap in Hm as (m' & [= -> ->] & Hm').
      rewrite (Hnew eq_refl) in Hm'. by apply elem_of_nil in Hm'. }
    destruct Hnext as [Hp|(x & HPx & Hs)].
    + destruct (IH _ Hc' Hp) as [[Hend Hnone]|(x & HP & Hend & Hx)].
      * left. split; [done |]. intros m Hm.
        apply elem_of_app in Hm as [Hm|Hm]; [by eapply Hquiet | by eapply Hnone].
      * right. exists x. split; [done |]. split; [done |]. intros m Hm.
        apply elem_of_app in Hm as [Hm|Hm]; [by destruct (Hquiet m) | by apply Hx].
    + destruct (trace_settled x sched (sched_step u s) Hc' Hs) as [Hend Hx].
      right. exists x. split; [done |]. split; [done |]. intros m Hm.
      apply elem_of_app in Hm as [Hm|Hm]; [by destruct (Hquiet m) | by apply Hx].
Qed.

Lemma sched_step_pool (u : nat) (s : gmap nat (Coro MwE Response) * World) :
  is_Some (s.1 !! t) -> is_Some ((sched_step u s).1 !! t).
Proof.
  intros Ht. unfold sched_step. destruct (s.1 !! u) as [c|] eqn:Hu; [| done].
  destruct (step_mw c u s.2) as [c' w']. simpl.
  destruct (decide (u = t)) as [->|Hne].
  - by rewrite lookup_insert_eq.
  - by rewrite lookup_insert_ne.
Qed.

Lemma exec_pool (sched : list nat) :
  forall s, is_Some (s.1 !! t) -> is_Some ((exec sched s).1 !! t).
Proof.
  induction sched as [|u sched IH]; intros s Ht; simpl; [done |].
  by apply IH, sched_step_pool.
Qed.

End Interleaving.

(** ** Facts about the sinks *)

Lemma emit_all_cons (cur : option string) (id : nat) (h : Handler)
    (hs : list (nat * Handler)) (r : LogRecord) :
  Forall (fun ih => ours ih.2) ((id, h) :: hs) ->
  emit_all cur ((id, h) :: hs) r
  = (handler_emit cur id h r).2 ++ emit_all cur hs r.
Proof.
  intros Hall. apply Forall_cons in Hall as [[Hf Hfmt] Hhs]. simpl in *.
  rewrite handler_emit_filtered by done.
  destruct (lv_no (r_level r) <? h_levelno h)%Z; simpl; [done |].
  f_equal. clear Hf Hfmt. revert r.
  induction Hhs as [|[id' h'] hs' [Hf' Hfmt'] _ IH]; intros r; [done |].
  simpl in *. rewrite !handler_emit_filtered by done. simpl.
  destruct (lv_no (r_level r) <? h_levelno h')%Z; simpl; [apply IH |].
  f_equal.
Qed.

Lemma handler_emit_gate (cur : option string) (id : nat) (h : Handler)
    (r : LogRecord) :
  ours h ->
  length (handler_emit cur id h r).2
  = if (lv_no (r_level r) <? h_levelno h)%Z then 0 else 1.
Proof.
  intros [Hf Hfmt]. rewrite handler_emit_filtered by done.
  by destruct (lv_no (r_level r) <? h_levelno h)%Z.
Qed.

Lemma handler_emit_handler (cur : option string) (id : nat) (h : Handler)
    (r : LogRecord) :
  Forall (fun m => m_handler m = id) (handler_emit cur id h r).2.
Proof.
  unfold handler_emit.
  destruct (lv_no (r_level r) <? h_levelno h)%Z; [constructor |].
  destruct (match h_filter h with Some f => f cur r | None => (r, true) end)
    as [r' keep].
  destruct keep; [| constructor].
  destruct (render _ _ _); repeat constructor.
Qed.

Lemma lines_of_same (id : nat) (lines : list Message) :
  Forall (fun m => m_handler m = id) lines -> lines_of id lines = lines.
Proof.
  unfold lines_of. induction 1 as [|m l Hm _ IH]; [done |].
  rewrite filter_cons_True by done. by f_equal.
Qed.

Lemma lines_of_other (id id' : nat) (lines : list Message) :
  id <> id' -> Forall (fun m => m_handler m = id') lines ->
  lines_of id lines = [].
Proof.
  unfold lines_of. intros Hne. induction 1 as [|m l Hm _ IH]; [done |].
  rewrite filter_cons_False by congruence. done.
Qed.

Lemma lines_of_app (id : nat) (a b : list Message) :
  lines_of id (a ++ b) = lines_of id a ++ lines_of id b.
Proof. apply filter_app. Qed.

(** A record offered to the three sinks: each sink whose level it reaches
    receives it once. *)
Lemma emit_all_three (st : Settings) (cur : option string) (n : nat)
    (r : LogRecord) :
  let hs := [(n, console_handler st); (S n, general_handler st);
             (S (S n), error_handler st)] in
  length (lines_of (S n) (emit_all cur hs r))
  = (if (lv_no (r_level r) <? 20)%Z then 0 else 1)
  /\ length (lines_of (S (S n)) (emit_all cur hs r))
     = (if (lv_no (r_level r) <? 40)%Z then 0 else 1).
Proof.
  intros hs. unfold hs.
  rewrite !emit_all_cons by (repeat constructor).
  change (emit_all cur [] r) with (@nil Message).
  rewrite !lines_of_app.
  pose proof (handler_emit_handler cur n (console_handler st) r) as H1.
  pose proof (handler_emit_handler cur (S n) (general_handler st) r) as H2.
  pose proof (handler_emit_handler cur (S (S n)) (error_handler st) r) as H3.
  rewrite (lines_of_other (S n) n _ ltac:(lia) H1),
    (lines_of_other (S n) (S (S n)) _ ltac:(lia) H3),
    (lines_of_other (S (S n)) n _ ltac:(lia) H1),
    (lines_of_other (S (S n)) (S n) _ ltac:(lia) H2),
    (lines_of_same _ _ H2), (lines_of_same _ _ H3).
  change (lines_of _ []) with (@nil Message).
  rewrite !app_nil_r, !app_nil_l.
  rewrite !handler_emit_gate by (split; reflexivity). done.
Qed.

Lemma emit_all_length (cur : option string) (hs : list (nat * Handler)) :
  Forall (fun ih => ours ih.2) hs ->
  forall r,
    length (emit_all cur hs r)
    = length (filter (fun ih => (h_levelno ih.2 <= lv_no (r_level r))%Z) hs).
Proof.
  induction hs as [|[id h] hs IH]; intros Hall r; [done |].
  rewrite emit_all_cons by done.
  apply Forall_cons in Hall as [Hh Hhs]. simpl in Hh.
  rewrite length_app, handler_emit_gate, IH by done.
  destruct (Z.ltb_spec (lv_no (r_level r)) (h_levelno h)).
  - rewrite filter_cons_False by (simpl; lia). done.
  - rewrite filter_cons_True by (simpl; lia). done.
Qed.

(** ** Facts about [setup_logging] *)

Lemma path_isdir_insert (p : list string) (fs : gmap (list string) Node) :
  path_isdir p (<[p := Dir]> fs) = true.
Proof.
  unfold path_isdir. destruct p as [|x p]; [done |].
  by rewrite lookup_insert_eq.
Qed.

Lemma mkdir_isdir (tail : string) (rhead : list string)
    (fs fs' : gmap (list string) Node) :
  mkdir tail rhead fs = inr fs' -> path_isdir (rev (tail :: rhead)) fs' = true.
Proof.
  unfold mkdir.
  destruct (path_exists _ fs); [done |].
  destruct (negb (path_exists _ fs)); [done |].
  destruct (negb (path_isdir _ fs)); [done |].
  intros [= <-]. apply path_isdir_insert.
Qed.

Lemma makedirs_isdir (p : list string) (fs fs' : gmap (list string) Node) :
  makedirs p true fs = inr fs' -> path_isdir p fs' = true.
Proof.
  unfold makedirs. rewrite <- (rev_involutive p) at 2.
  destruct (rev p) as [|tail rhead]; [done |].
  cbn [makedirs_rev].
  destruct (if path_exists (rev rhead) fs then _ else _) as [e|fs1]; [done |].
  destruct (mkdir tail rhead fs1) as [e|fs2] eqn:Hmk.
  - cbn [andb].
    destruct (path_isdir (rev (tail :: rhead)) fs1) eqn:Hd; [| done].
    by intros [= <-].
  - intros [= <-]. by apply mkdir_isdir in Hmk.
Qed.

Lemma setup_logging_inv (st : Settings) (site : CallSite) (t : nat)
    (w w' : World) :
  setup_logging st site t w = inr w' ->
  let n := handlers_count (w_core w) in
  handlers (w_core w')
  = [(n, console_handler st); (S n, general_handler st);
     (S (S n), error_handler st)]
  /\ makedirs (BASE_DIR st ++ ["logs"]) true (w_fs w) = inr (w_fs w').
Proof.
  unfold setup_logging, async_makedirs, logger_add, console_sink,
    general_sink, error_sink.
  cbn [a_level a_sink a_format a_filter a_colorize a_enqueue a_backtrace
       a_diagnose a_rotation a_retention a_compression a_encoding].
  assert (logger_level (if DEBUG st then "DEBUG" else "INFO")
          = inr (if DEBUG st then mkLevel "DEBUG" 10 [34; 1]%N
                 else mkLevel "INFO" 20 [1]%N)) as ->
    by by destruct (DEBUG st).
  change (logger_level "INFO") with (@inr Exn _ (mkLevel "INFO" 20 [1]%N)).
  change (logger_level "ERROR") with (@inr Exn _ (mkLevel "ERROR" 40 [31; 1]%N)).
  cbn [ok_bind].
  destruct (makedirs _ true (w_fs w)) as [e|fs]; [done |].
  cbn [ok_bind]. rewrite logger_log_info. cbn [ok_bind].
  intros [= <-]. split; [| done]. simpl.
  unfold console_handler, general_handler, error_handler, file_handler.
  by destruct (DEBUG st).
Qed.

Lemma setup_logging_configured (st : Settings) (site : CallSite) (t : nat)
    (w w' : World) :
  setup_logging st site t w = inr w' -> configured st (w_core w').
Proof.
  intros [H _]%setup_logging_inv. unfold configured. by rewrite H.
Qed.

(** Whether the request carries the header or not. *)
Ltac by_header request :=
  unfold entered;
  by destruct (headers_get (req_headers request) "x-request-id").

Lemma entered_core (t : nat) (request : Request) (w : World) :
  w_core (entered t request w) = w_core w.
Proof. by_header request. Qed.

Lemma entered_out (t : nat) (request : Request) (w : World) :
  w_out (entered t request w) = w_out w.
Proof. by_header request. Qed.

Lemma entered_clock (t : nat) (request : Request) (w : World) :
  w_clock (entered t request w) = w_clock w.
Proof. by_header request. Qed.

Lemma entered_ticks (t : nat) (request : Request) (w : World) :
  w_ticks (entered t request w) = S (w_ticks w).
Proof. by_header request. Qed.

Lemma entered_ctx (t : nat) (request : Request) (w : World) :
  w_ctx (entered t request w) !! t = Some (request_id_of request w).
Proof.
  unfold entered. simpl. unfold request_id_context_set.
  by rewrite lookup_insert_eq.
Qed.






(** After [setup_logging] the root logger and the six third-party loggers
    hand their records to the bridging handler alone, and the third-party
    loggers no longer propagate. *)
Lemma setup_logging_bridges (st : Settings) (site : CallSite) (t : nat)
    (w w' : World) :
  setup_logging st site t w = inr w' ->
  sl_handlers (std_root (w_std w')) = [InterceptHandler]
  /\ sl_level (std_root (w_std w')) = 0%Z
  /\ forall name, name ∈ third_party_loggers ->
       exists l, std_named (w_std w') !! name = Some l
                 /\ sl_handlers l = [InterceptHandler]
                 /\ sl_propagate l = false.
Proof.
  unfold setup_logging, async_makedirs.
  destruct (logger_add (console_sink st) _) as [e|[n1 c1]]; [done |].
  cbn [ok_bind].
  destruct (makedirs _ true (w_fs w)) as [e|fs]; [done |]. cbn [ok_bind].
  destruct (logger_add (general_sink st _) c1) as [e|[n2 c2]]; [done |].
  cbn [ok_bind].
  destruct (logger_add (error_sink st _) c2) as [e|[n3 c3]]; [done |].
  cbn [ok_bind].
  destruct (logger_log _ c3 _) as [e|lines]; [done |]. cbn [ok_bind].
  intros [= <-]. split; [done |]. split; [done |].
  intros name Hname. unfold third_party_loggers in *.
  cbn [foldl redirect_logger std_named std_root with_logging w_std].
  repeat (apply elem_of_cons in Hname as [->|Hname];
          [eexists; split;
           [repeat (first [apply lookup_insert_eq
                          | rewrite lookup_insert_ne by done]) | done] |]).
  by apply elem_of_nil in Hname.
Qed.

(** [setup_logging] completes whenever the log directory can be made. *)
Lemma setup_logging_completes (st : Settings) (site : CallSite) (t : nat)
    (w : World) (fs : gmap (list string) Node) :
  makedirs (BASE_DIR st ++ ["logs"]) true (w_fs w) = inr fs ->
  exists w', setup_logging st site t w = inr w'.
Proof.
  intros Hfs.
  unfold setup_logging, async_makedirs, logger_add, console_sink,
    general_sink, error_sink.
  cbn [a_level a_sink a_format a_filter a_colorize a_enqueue a_backtrace
       a_diagnose a_rotation a_retention a_compression a_encoding].
  assert (logger_level (if DEBUG st then "DEBUG" else "INFO")
          = inr (if DEBUG st then mkLevel "DEBUG" 10 [34; 1]%N
                 else mkLevel "INFO" 20 [1]%N)) as ->
    by by destruct (DEBUG st).
  change (logger_level "INFO") with (@inr Exn _ (mkLevel "INFO" 20 [1]%N)).
  change (logger_level "ERROR") with (@inr Exn _ (mkLevel "ERROR" 40 [31; 1]%N)).
  cbn [ok_bind]. rewrite Hfs. cbn [ok_bind].
  rewrite logger_log_info. cbn [ok_bind]. by eexists.
Qed.

(** C3: once setup_logging has completed, the log directory exists, and the
    general and the error file sink are registered with minimum levels INFO
    and ERROR and the same rotation, retention and compression; so a record
    at ERROR or above reaches both files once, and a record at INFO or
    above but below ERROR reaches the general file once and the error file
    not at all. *)
Theorem setup_logging_file_sinks (st : Settings) (site : CallSite) (t : nat)
    (w w' : World) :
  setup_logging st site t w = inr w' ->
  let log_dir := BASE_DIR st ++ ["logs"] in
  path_isdir log_dir (w_fs w') = true
  /\ exists (n : nat) (console general error : Handler),
       handlers (w_core w') = [(n, console); (S n, general); (S (S n), error)]
       /\ h_sink console = Stdout
       /\ h_sink general = FileSink log_dir ""
       /\ h_sink error = FileSink log_dir "error_"
       /\ logger_level "INFO" = inr (mkLevel "INFO" (h_levelno general) [1%N])
       /\ logger_level "ERROR"
          = inr (mkLevel "ERROR" (h_levelno error) [31%N; 1%N])
       /\ h_rotation general = Some (LOG_ROTATION st)
       /\ h_retention general = Some (LOG_RETENTION st)
       /\ h_compression general = Some (LOG_COMPRESSION st)
       /\ h_rotation error = h_rotation general
       /\ h_retention error = h_retention general
       /\ h_compression error = h_compression general
       /\ forall (cur : option string) (call : LogCall) (lv : Level),
            resolve_level (lc_level call) = inr lv ->
            exists lines,
              logger_log cur (w_core w') call = inr lines
              /\ ((40 <= lv_no lv)%Z ->
                  length (lines_of (S n) lines) = 1
                  /\ length (lines_of (S (S n)) lines) = 1)
              /\ ((20 <= lv_no lv < 40)%Z ->
                  length (lines_of (S n) lines) = 1
                  /\ lines_of (S (S n)) lines = []).
Proof.
  intros Hs log_dir.
  pose proof (setup_logging_inv _ _ _ _ _ Hs) as [Hh Hfs].
  split; [by apply makedirs_isdir in Hfs |].
  exists (handlers_count (w_core w)), (console_handler st),
    (general_handler st), (error_handler st).
  split; [done |]. do 11 (split; [done |]).
  intros cur call lv Hlv. rewrite (logger_log_resolved _ _ _ lv Hlv), Hh.
  eexists. split; [reflexivity |].
  pose proof (emit_all_three st cur (handlers_count (w_core w))
                (build_record lv call)) as [Hg He].
  cbv zeta in Hg, He. cbn [build_record r_level] in Hg, He. split.
  - intros Hge. rewrite Hg, He.
    by destruct (Z.ltb_spec (lv_no lv) 20), (Z.ltb_spec (lv_no lv) 40);
      try lia.
  - intros Hrange. rewrite Hg.
    destruct (Z.ltb_spec (lv_no lv) 20); [lia |]. split; [done |].
    apply length_zero_iff_nil. rewrite He.
    destruct (Z.ltb_spec (lv_no lv) 40); [done | lia].
Qed.

Lemma setup_logging_file_sinks_witness :
  let log_dir := BASE_DIR example_settings ++ ["logs"] in
  path_isdir log_dir (w_fs served_world) = true
  /\ exists (n : nat) (console general error : Handler),
       handlers (w_core served_world)
       = [(n, console); (S n, general); (S (S n), error)]
       /\ h_sink console = Stdout
       /\ h_sink general = FileSink log_dir ""
       /\ h_sink error = FileSink log_dir "error_"
       /\ logger_level "INFO" = inr (mkLevel "INFO" (h_levelno general) [1%N])
       /\ logger_level "ERROR"
          = inr (mkLevel "ERROR" (h_levelno error) [31%N; 1%N])
       /\ h_rotation general = Some (LOG_ROTATION example_settings)
       /\ h_retention general = Some (LOG_RETENTION example_settings)
       /\ h_compression general = Some (LOG_COMPRESSION example_settings)
       /\ h_rotation error = h_rotation general
       /\ h_retention error = h_retention general
       /\ h_compression error = h_compression general
       /\ forall (cur : option string) (call : LogCall) (lv : Level),
            resolve_level (lc_level call) = inr lv ->
            exists lines,
              logger_log cur (w_core served_world) call = inr lines
              /\ ((40 <= lv_no lv)%Z ->
                  length (lines_of (S n) lines) = 1
                  /\ length (lines_of (S (S n)) lines) = 1)
              /\ ((20 <= lv_no lv < 40)%Z ->
                  length (lines_of (S n) lines) = 1
                  /\ lines_of (S (S n)) lines = []).
Proof.
  apply (setup_logging_file_sinks example_settings setup_site 0 fresh_world).
  reflexivity.
Defined.

Lemma find_level_name (name : string) (ls : list Level) (lv : Level) :
  find_level name ls = Some lv -> lv_name lv = name.
Proof.
  induction ls as [|l ls IH]; simpl; [done |].
  destruct (String.eqb_spec (lv_name l) name) as [He|Hne]; [| done].
  by intros [= <-].
Qed.

(** C4: when the level name of a standard record is not a level name of the
    pipeline, logger.level raises ValueError, emit catches it and re-emits
    the record at the record's numeric level; when the name is one of the
    pipeline's, emit re-emits at the pipeline level of that name. In both
    cases the call reaches the handlers instead of raising. *)
Theorem emit_level_fallback (cur : option string) (c : Core)
    (record : StdRecord) (depth : nat) (frame : Frame) :
  emit_depth (drop (sr_currentframe record) (sr_stack record)) 2 = inr depth ->
  sr_stack record !! depth = Some frame ->
  let call := fun level =>
    mkCall (mkSite (sr_time record) (sr_process record) (sr_thread record)
              frame)
      level (sr_message record) ∅ (sr_exc_info record) in
  (forall lv, find_level (sr_levelname record) levels = Some lv ->
     emit_level record = LName (sr_levelname record)
     /\ emit cur c record
        = inr (emit_all cur (handlers c)
                 (build_record lv (call (LName (sr_levelname record))))))
  /\ (find_level (sr_levelname record) levels = None ->
      (exists msg, logger_level (sr_levelname record) = inl (ValueError msg))
      /\ emit_level record = LNo (sr_levelno record)
      /\ ((0 <= sr_levelno record)%Z ->
          emit cur c record
          = inr (emit_all cur (handlers c)
                   (build_record
                      (mkLevel ("Level " +:+ str_int (sr_levelno record))
                         (sr_levelno record) [])
                      (call (LNo (sr_levelno record))))))).
Proof.
  intros Hd Hf call. unfold emit, emit_level, logger_level.
  rewrite Hd, Hf. fold call. split.
  - intros lv Hlv. rewrite Hlv.
    rewrite (find_level_name _ _ _ Hlv). split; [done |].
    apply logger_log_resolved. simpl. unfold logger_level. by rewrite Hlv.
  - intros Hnone. rewrite Hnone. split; [by eexists |]. split; [done |].
    intros Hpos. apply logger_log_resolved. simpl.
    destruct (Z.ltb_spec (sr_levelno record) 0); [lia | done].
Qed.

Lemma emit_level_fallback_witness :
  emit_level audit_record = LNo 35
  /\ emit (Some "abc123") (w_core served_world) audit_record
     = inr (emit_all (Some "abc123") (handlers (w_core served_world))
              (build_record (mkLevel "Level 35" 35 [])
                 (mkCall (mkSite example_time 4242 140001
                            (mkFrame "uvicorn/server.py" "uvicorn.server"
                               "serve" 84))
                    (LNo 35) "configuration reloaded" ∅ None)))
  /\ emit_level warning_record = LName "WARNING"
  /\ emit None (w_core served_world) warning_record
     = inr (emit_all None (handlers (w_core served_world))
              (build_record (mkLevel "WARNING" 30 [33; 1]%N)
                 (mkCall (mkSite example_time 4242 140001
                            (mkFrame "uvicorn/server.py" "uvicorn.server"
                               "serve" 84))
                    (LName "WARNING") "slow client" ∅ None))).
Proof.
  pose proof (emit_level_fallback (Some "abc123") (w_core served_world)
                audit_record 6
                (mkFrame "uvicorn/server.py" "uvicorn.server" "serve" 84)
                eq_refl eq_refl) as [_ Hunknown].
  destruct (Hunknown eq_refl) as (_ & Hlevel & Hemit).
  pose proof (emit_level_fallback None (w_core served_world)
                warning_record 6
                (mkFrame "uvicorn/server.py" "uvicorn.server" "serve" 84)
                eq_refl eq_refl) as [Hknown _].
  destruct (Hknown (mkLevel "WARNING" 30 [33; 1]%N) eq_refl) as [Hl Hw].
  split; [exact Hlevel |]. split; [apply Hemit; simpl; lia |].
  split; [exact Hl | exact Hw].
Defined.

(** C5: reading the correlation slot never fails. Whatever the slot holds,
    the filter leaves a string in the traceid field and the formatter
    renders it; when no value has been set in the current context that
    string is the sentinel miss_traceid, and so it is on every line the
    pipeline emits from that context. *)
Theorem unset_context_reads_sentinel (st : Settings) (cur : option string)
    (c : Core) (call : LogCall) (lines : list Message) (r : LogRecord)
    (colorize : bool) :
  configured st c ->
  logger_log cur c call = inr lines ->
  (exists s : string,
     request_id_context_get "miss_traceid" cur = s
     /\ r_extra (_filter cur r).1 !! "traceid" = Some s
     /\ render colorize log_format (_filter cur r).1
        = Some (record_line colorize (_filter cur r).1 s)
     /\ Forall (carries s) lines)
  /\ (cur = None ->
      request_id_context_get "miss_traceid" cur = "miss_traceid"
      /\ r_extra (_filter cur r).1 !! "traceid" = Some "miss_traceid"
      /\ render colorize log_format (_filter cur r).1
         = Some (record_line colorize (_filter cur r).1 "miss_traceid")
      /\ Forall (carries "miss_traceid") lines).
Proof.
  intros Hc Hlog.
  pose proof (logger_log_carries st cur c call lines Hc Hlog) as Hlines.
  assert (r_extra (_filter cur r).1 !! "traceid"
          = Some (request_id_context_get "miss_traceid" cur)) as Hx
    by (rewrite _filter_extra; apply lookup_singleton_eq).
  split.
  - eexists. split; [reflexivity |]. split; [exact Hx |].
    split; [by apply render_log_format | done].
  - intros ->. split; [done |]. split; [exact Hx |].
    split; [by apply render_log_format | done].
Qed.

Lemma unset_context_reads_sentinel_witness :
  exists lines,
    logger_log None (w_core served_world) (info_call route_site "hello world")
    = inr lines
    /\ length lines = 2
    /\ Forall (carries "miss_traceid") lines.
Proof.
  eexists. split; [reflexivity |]. split; [reflexivity |].
  pose proof (unset_context_reads_sentinel example_settings None
                (w_core served_world) (info_call route_site "hello world")
                _ (build_record (mkLevel "INFO" 20 [1%N])
                     (info_call route_site "hello world")) false
                eq_refl eq_refl) as [_ Hunset].
  destruct (Hunset eq_refl) as (_ & _ & _ & Hlines). exact Hlines.
Defined.

Lemma emit_all_rendered (cur : option string) (hs : list (nat * Handler)) :
  Forall (fun ih => ours ih.2) hs ->
  forall r m, m ∈ emit_all cur hs r ->
    let x := request_id_context_get "miss_traceid" cur in
    let r' := set_extra {[ "traceid" := x ]} r in
    exists h, (m_handler m, h) ∈ hs
              /\ m_record m = r'
              /\ m_text m = record_line (h_colorize h) r' x.
Proof.
  induction hs as [|[id h] hs IH]; intros Hall r m Hm; [by apply elem_of_nil in Hm |].
  rewrite emit_all_cons in Hm by done.
  apply Forall_cons in Hall as [[Hf Hfmt] Hhs]. simpl in Hf, Hfmt.
  apply elem_of_app in Hm as [Hm|Hm].
  - rewrite handler_emit_filtered in Hm by done.
    destruct (lv_no (r_level r) <? h_levelno h)%Z; simpl in Hm;
      [by apply elem_of_nil in Hm |].
    apply list_elem_of_singleton in Hm as ->. simpl.
    exists h. split; [apply list_elem_of_here | done].
  - destruct (IH Hhs r m Hm) as (h' & Hin & Hrec & Htext).
    exists h'. split; [by apply list_elem_of_further | done].
Qed.




(** C10: the filter lets every record pass and replaces the record's extra
    mapping by one that holds the traceid key alone, so whatever the caller
    had bound to the logger is gone before the record is formatted; every
    sink whose level the record reaches receives it, with that mapping. *)
Theorem filter_keeps_only_traceid (st : Settings) (cur : option string)
    (c : Core) (call : LogCall) (lv : Level) (r : LogRecord) :
  configured st c ->
  resolve_level (lc_level call) = inr lv ->
  let x := request_id_context_get "miss_traceid" cur in
  (_filter cur r).2 = true
  /\ r_extra (_filter cur r).1 = {[ "traceid" := x ]}
  /\ dom (r_extra (_filter cur r).1) = ({[ "traceid" ]} : gset string)
  /\ (forall k, k <> "traceid" -> r_extra (_filter cur r).1 !! k = None)
  /\ (_filter cur r).1 = set_extra {[ "traceid" := x ]} r
  /\ exists lines,
       logger_log cur c call = inr lines
       /\ Forall (fun m =>
            m_record m
            = set_extra {[ "traceid" := x ]} (build_record lv call))
            lines
       /\ length lines
          = length (filter (fun ih => (h_levelno ih.2 <= lv_no lv)%Z)
                      (handlers c)).
Proof.
  intros Hc Hlv x. split; [done |]. split; [done |].
  split; [by rewrite _filter_extra, dom_singleton_L |].
  split.
  { intros k Hk. rewrite _filter_extra. by apply lookup_singleton_ne. }
  split; [done |].
  pose proof (configured_ours st c Hc) as Hours.
  rewrite (logger_log_resolved _ _ _ lv Hlv). eexists. split; [done |]. split.
  - apply Forall_forall. intros m Hm.
    by apply emit_all_rendered in Hm as (h & _ & Hrec & _).
  - by rewrite emit_all_length.
Qed.

Lemma filter_keeps_only_traceid_witness :
  let call := mkCall route_site (LName "ERROR") "lookup failed"
                {[ "user" := "alice"; "traceid" := "forged" ]} None in
  exists lines,
    logger_log (Some "abc123") (w_core served_world) call = inr lines
    /\ Forall (fun m => r_extra (m_record m) = {[ "traceid" := "abc123" ]})
         lines
    /\ length lines = 3.
Proof.
  intros call.
  pose proof (filter_keeps_only_traceid example_settings (Some "abc123")
                (w_core served_world) call (mkLevel "ERROR" 40 [31; 1]%N)
                (build_record (mkLevel "ERROR" 40 [31; 1]%N) call)
                eq_refl eq_refl)
    as (_ & _ & _ & _ & _ & lines & Hlog & Hrec & Hlen).
  exists lines. split; [exact Hlog |]. split; [| exact Hlen].
  eapply Forall_impl; [exact Hrec |]. intros m ->. reflexivity.
Defined.

(** ** Facts about the completion line *)

Lemma int_of_nonneg (q : Q) : (0 <= q)%Q -> (0 <= int_of q)%Z.
Proof.
  unfold Qle, int_of. simpl. intros H.
  apply Z.quot_pos; lia.
Qed.

Lemma elapsed_nonneg (a b : Q) :
  (a <= b)%Q -> (0 <= int_of ((b - a) * 1000))%Z.
Proof.
  intros Hab. apply int_of_nonneg.
  apply Qmult_le_0_compat; [| done].
  unfold Qminus. by apply -> Qle_minus_iff.
Qed.

Lemma contains_here (pre sub post : string) :
  contains sub (pre +:+ sub +:+ post).
Proof. by exists pre, post. Qed.

Lemma contains_after (a sub s : string) :
  contains sub s -> contains sub (a +:+ s).
Proof.
  intros (pre & post & ->). exists (a +:+ pre), post.
  by rewrite append_assoc.
Qed.

Lemma configured_handlers (st : Settings) (c : Core) :
  configured st c ->
  exists i1 i2 i3,
    handlers c = [(i1, console_handler st); (i2, general_handler st);
                  (i3, error_handler st)].
Proof.
  unfold configured. intros Hc.
  destruct (handlers c) as [|[i1 h1] [|[i2 h2] [|[i3 h3] [|]]]]; try done.
  simpl in Hc. injection Hc as -> -> ->. by exists i1, i2, i3.
Qed.

(** An INFO record reaches the console and the general file, not the error
    file. *)
Lemma emit_all_info (st : Settings) (cur : option string) (i1 i2 i3 : nat)
    (r : LogRecord) :
  lv_no (r_level r) = 20%Z ->
  let x := request_id_context_get "miss_traceid" cur in
  let r' := set_extra {[ "traceid" := x ]} r in
  emit_all cur [(i1, console_handler st); (i2, general_handler st);
                (i3, error_handler st)] r
  = [mkMessage i1 (record_line true r' x) r';
     mkMessage i2 (record_line false r' x) r'].
Proof.
  intros Hlv x r'.
  rewrite !emit_all_cons by (repeat constructor).
  rewrite !handler_emit_filtered by reflexivity. rewrite Hlv.
  simpl. by destruct (DEBUG st).
Qed.

Lemma run_downstream_clock (st : Settings) {A : Type} (c : Coro AppE A) (t : nat)
    (w : World) :
  configured st (w_core w) ->
  w_clock (run_downstream c t w).2 = w_clock w
  /\ w_ticks w <= w_ticks (run_downstream c t w).2
  /\ w_core (run_downstream c t w).2 = w_core w
  /\ w_ctx (run_downstream c t w).2 = w_ctx w.
Proof.
  intros Hc.
  destruct (run_downstream_extends st c t w Hc) as (? & ? & ? & ? & _). done.
Qed.

(** C7, as stated, fails: the elapsed time is the difference of two readings
    of time.time(), a wall clock that can be set back. With the readings 10
    and 9 the route returns, the one completion call is made, and the value
    its line holds is -1000, which is negative. *)
Lemma stepped_back_clock_gives_negative_time :
  let w := stepped_back_world in
  let response := mkResponse 200 [("message", "Hello World")] in
  exists console file w1,
    run_downstream (route tagged_request) 1 (entered 1 tagged_request w)
    = (Returned response, w1)
    /\ run_middleware (extra_process middleware_site tagged_request route) 1 w
       = (Returned response, append_out [console; file] (tick w1))
    /\ int_of ((w_clock w1 (w_ticks w1) - w_clock w (w_ticks w)) * 1000)
       = (-1000)%Z
    /\ r_message (m_record file)
       = "process finished... process time [-1000ms]: 200-http://localhost:8000/"
    /\ m_text file
       = "| 2024-03-07 09:05:02.045 |   INFO   | abc123                           | process [4242]:140001 | api.app:extra_process:34 - process finished... process time [-1000ms]: 200-http://localhost:8000/ |".
Proof.
  intros w response. eexists _, _, _.
  split; [reflexivity |]. split; [vm_compute; reflexivity |].
  split; [reflexivity |]. split; reflexivity.
Qed.

(** C7, amended: when the downstream handling of a request returns, the
    middleware makes exactly one logging call after it: the console and the
    general file each receive one line, nothing else is added, and the
    message of that line holds the elapsed time in whole milliseconds, the
    status code of the response and the path of the request. The elapsed
    time is the difference of the two readings of the clock; it is not
    negative whenever the second reading is not earlier than the first. *)
Theorem completion_line_reports_elapsed_time (st : Settings)
    (site : CallSite) (request : Request)
    (call_next : Request -> Coro AppE Response)
    (t : nat) (w : World) (response : Response) (w1 : World) :
  configured st (w_core w) ->
  run_downstream (call_next request) t (entered t request w)
  = (Returned response, w1) ->
  let ptime := (w_clock w1 (w_ticks w1) - w_clock w (w_ticks w))%Q in
  let ms := int_of (ptime * 1000) in
  let message := finished_message ptime response request in
  let id := request_id_of request w in
  let r := set_extra {[ "traceid" := id ]}
             (build_record (mkLevel "INFO" 20 [1%N])
                (info_call site message)) in
  ((w_clock w (w_ticks w) <= w_clock w1 (w_ticks w1))%Q -> (0 <= ms)%Z)
  /\ contains ("[" +:+ str_int ms +:+ "ms]") message
  /\ contains (str_int (status_code response)) message
  /\ contains (url_path (req_url request)) message
  /\ exists i1 i2 i3,
       handlers (w_core w)
       = [(i1, console_handler st); (i2, general_handler st);
          (i3, error_handler st)]
       /\ run_middleware (extra_process site request call_next) t w
          = (Returned response,
             append_out [mkMessage i1 (record_line true r id) r;
                         mkMessage i2 (record_line false r id) r]
               (tick w1)).
Proof.
  intros Hc Hrun ptime ms message id r.
  assert (configured st (w_core (entered t request w))) as Hc'
    by by rewrite entered_core.
  pose proof (run_downstream_clock st (call_next request) t _ Hc')
    as (_ & _ & Hcore & Hctx).
  rewrite Hrun in Hcore, Hctx.
  cbn [snd] in Hcore, Hctx.
  rewrite entered_core in Hcore.
  split.
  { apply elapsed_nonneg. }
  split.
  { unfold message, finished_message.
    exists "process finished... process time ",
      (": " +:+ str_int (status_code response) +:+ "-"
         +:+ url_str (req_url request)).
    fold ptime. fold ms. by rewrite !append_assoc. }
  split.
  { unfold message, finished_message. do 2 apply contains_after.
    apply contains_here. }
  split.
  { unfold message, finished_message, url_str. do 7 apply contains_after.
    apply contains_here. }
  destruct (configured_handlers st _ Hc) as (i1 & i2 & i3 & Hh).
  exists i1, i2, i3. split; [done |].
  rewrite extra_process_run, Hrun. f_equal. f_equal.
  rewrite Hcore, Hh, Hctx, entered_ctx.
  by rewrite (emit_all_info st).
Qed.

Lemma completion_line_reports_elapsed_time_witness :
  exists console file w1,
    run_middleware (extra_process middleware_site tagged_request route) 1 served_world
    = (Returned (mkResponse 200 [("message", "Hello World")]),
       append_out [console; file] w1)
    /\ (0 <= int_of ((w_clock served_world 1 - w_clock served_world 0) * 1000))%Z
    /\ m_text file
       = "| 2024-03-07 09:05:02.045 |   INFO   | abc123                           | process [4242]:140001 | api.app:extra_process:34 - process finished... process time [250ms]: 200-http://localhost:8000/ |".
Proof.
  pose proof (completion_line_reports_elapsed_time example_settings
                middleware_site tagged_request route 1 served_world
                (mkResponse 200 [("message", "Hello World")])
                (run_downstream (route tagged_request) 1
                   (entered 1 tagged_request served_world)).2
                eq_refl eq_refl)
    as (Hms & _ & _ & _ & i1 & i2 & i3 & _ & Hrun).
  eexists _, _, _. split; [exact Hrun |]. split.
  - apply Hms. vm_compute. discriminate.
  - vm_compute. reflexivity.
Defined.

(** C8, as stated, fails: when the application behind call_next raises, the
    middleware raises too and the lines added are those of the application
    alone. *)
Lemma raising_handler_has_no_completion_line :
  (run_middleware (extra_process middleware_site tagged_request failing_route)
     1 served_world).1
  = Raised (AppError "handler failed")
  /\ ~ completion_logged middleware_site tagged_request failing_route
         1 served_world.
Proof.
  split; [reflexivity |].
  intros (m & ptime & response & Hm & Hmsg).
  vm_compute in Hm.
  repeat (apply elem_of_cons in Hm as [->|Hm];
          [vm_compute in Hmsg; discriminate |]).
  by apply elem_of_nil in Hm.
Qed.

(** C8, amended: the completion line is emitted exactly when the downstream
    handling returns. When call_next raises, the exception leaves the
    middleware as it is and the process stays as the application left it, so
    no completion call is made; when call_next returns, the completion call
    is made once and its lines are the only ones added. *)
Theorem completion_line_only_on_return (site : CallSite) (request : Request)
    (call_next : Request -> Coro AppE Response) (t : nat) (w : World) :
  (forall e w1,
     run_downstream (call_next request) t (entered t request w) = (Raised e, w1) ->
     run_middleware (extra_process site request call_next) t w = (Raised e, w1))
  /\ (forall response w1,
        run_downstream (call_next request) t (entered t request w)
        = (Returned response, w1) ->
        exists lines,
          logger_log (w_ctx w1 !! t) (w_core w1)
            (completion_call site request response w w1) = inr lines
          /\ run_middleware (extra_process site request call_next) t w
             = (Returned response, append_out lines (tick w1))).
Proof.
  split.
  - intros e w1 Hrun. by rewrite extra_process_run, Hrun.
  - intros response w1 Hrun. rewrite extra_process_run, Hrun.
    unfold completion_call. rewrite logger_log_info. by eexists.
Qed.

Lemma completion_line_only_on_return_witness :
  run_middleware (extra_process middleware_site tagged_request failing_route)
    1 served_world
  = (Raised (AppError "handler failed"),
     (run_downstream (failing_route tagged_request) 1
        (entered 1 tagged_request served_world)).2)
  /\ exists lines,
       run_middleware (extra_process middleware_site tagged_request route)
         1 served_world
       = (Returned (mkResponse 200 [("message", "Hello World")]),
          append_out lines
            (tick (run_downstream (route tagged_request) 1
                     (entered 1 tagged_request served_world)).2)).
Proof.
  split.
  - apply (proj1 (completion_line_only_on_return middleware_site
                    tagged_request failing_route 1 served_world)).
    reflexivity.
  - destruct (proj2 (completion_line_only_on_return middleware_site
                       tagged_request route 1 served_world)
                (mkResponse 200 [("message", "Hello World")])
                (run_downstream (route tagged_request) 1
                   (entered 1 tagged_request served_world)).2 eq_refl)
      as (lines & _ & Hrun).
    by exists lines.
Defined.

Lemma carries_inj (x y : string) (m : Message) :
  carries x m -> carries y m -> x = y.
Proof.
  intros [Hx _] [Hy _]. rewrite Hx in Hy.
  assert (({["traceid" := x]} : gmap string string) !! "traceid"
          = ({["traceid" := y]} : gmap string string) !! "traceid") as H
    by by rewrite Hy.
  rewrite !lookup_singleton_eq in H. by injection H.
Qed.

(** A step of one task leaves the slot of every other task as it was. *)
Lemma sched_step_ctx (u t : nat) (s : gmap nat (Coro MwE Response) * World) :
  u <> t -> w_ctx (sched_step u s).2 !! t = w_ctx s.2 !! t.
Proof.
  intros Hne. unfold sched_step. destruct (s.1 !! u) as [c|]; [| done].
  pose proof (step_mw_frame c u s.2) as [_ Hframe].
  destruct (step_mw c u s.2) as [c' w']. simpl in *. by apply Hframe.
Qed.

Lemma request_lines (st : Settings) (pool : gmap nat InFlight) (w : World)
    (sched : list nat) (t : nat) (r : InFlight) :
  configured st (w_core w) -> pool !! t = Some r ->
  exists x, asks r x
    /\ (forall m, (t, m) ∈ exec_trace sched (start <$> pool, w) ->
          carries x m)
    /\ ((forall m, (t, m) ∉ exec_trace sched (start <$> pool, w))
        \/ w_ctx (exec sched (start <$> pool, w)).2 !! t = Some x).
Proof.
  intros Hc Hr.
  assert (task_inv (asks r) t None (start <$> pool, w)) as Hinv.
  { unfold task_inv. simpl. rewrite lookup_fmap, Hr. simpl.
    apply start_pending. }
  destruct (trace_pending st (asks r) t sched (start <$> pool, w) Hc Hinv)
    as [[_ Hnone]|(x & HP & Hend & Hx)].
  - exists (default ""
              (headers_get (req_headers (if_request r)) "x-request-id")).
    split; [by intros X -> |]. split; [| by left].
    intros m Hm. by destruct (Hnone m).
  - exists x. split; [done |]. split; [done |]. right.
    destruct (exec_pool t sched (start <$> pool, w)) as [c Hpool].
    { simpl. rewrite lookup_fmap, Hr. by eexists. }
    unfold task_inv in Hend. rewrite Hpool in Hend. tauto.
Qed.

(** C9: two requests handled in interleaved steps on one worker keep their
    correlation ids apart. A step of one task never writes the slot of
    another. Whatever the schedule, there is one id for A, the one A asked
    for if it asked and the one in A's slot once A has emitted anything,
    that every line emitted by a step of A carries, and likewise for B; when
    the two ids differ, no line of A carries B's id and no line of B carries
    A's. *)
Theorem interleaved_requests_keep_their_ids (st : Settings)
    (pool : gmap nat InFlight) (w : World) (sched : list nat)
    (a b : nat) (ra rb : InFlight) :
  configured st (w_core w) ->
  pool !! a = Some ra ->
  pool !! b = Some rb ->
  a <> b ->
  let s0 := (start <$> pool, w) in
  (forall s u t, u <> t -> w_ctx (sched_step u s).2 !! t = w_ctx s.2 !! t)
  /\ exists xa xb,
       asks ra xa /\ asks rb xb
       /\ ((forall m, (a, m) ∉ exec_trace sched s0)
           \/ w_ctx (exec sched s0).2 !! a = Some xa)
       /\ ((forall m, (b, m) ∉ exec_trace sched s0)
           \/ w_ctx (exec sched s0).2 !! b = Some xb)
       /\ forall t m,
            (t, m) ∈ exec_trace sched s0 ->
            (t = a -> carries xa m /\ (xa <> xb -> ~ carries xb m))
            /\ (t = b -> carries xb m /\ (xb <> xa -> ~ carries xa m)).
Proof.
  intros Hc Ha Hb _ s0. split; [intros s u t; apply sched_step_ctx |].
  destruct (request_lines st pool w sched a ra Hc Ha)
    as (xa & Hxa & Hla & Hsa).
  destruct (request_lines st pool w sched b rb Hc Hb)
    as (xb & Hxb & Hlb & Hsb).
  exists xa, xb. do 4 (split; [done |]).
  intros t m Hm. split; intros ->.
  - split; [by apply Hla |]. intros Hne Hcb. apply Hne.
    by apply (carries_inj xa xb m); [apply Hla |].
  - split; [by apply Hlb |]. intros Hne Hca. apply Hne.
    by apply (carries_inj xb xa m); [apply Hlb |].
Qed.

Lemma interleaved_requests_keep_their_ids_witness :
  let sched := [1; 2; 2; 1; 2; 1; 1; 2; 2; 1; 1; 2; 2; 1] in
  let s0 := (start <$> two_requests, served_world) in
  (forall s u t, u <> t -> w_ctx (sched_step u s).2 !! t = w_ctx s.2 !! t)
  /\ exists xa xb,
       asks (mkInFlight middleware_site tagged_request route) xa
       /\ asks (mkInFlight middleware_site plain_request route) xb
       /\ ((forall m, (1, m) ∉ exec_trace sched s0)
           \/ w_ctx (exec sched s0).2 !! 1 = Some xa)
       /\ ((forall m, (2, m) ∉ exec_trace sched s0)
           \/ w_ctx (exec sched s0).2 !! 2 = Some xb)
       /\ forall t m,
            (t, m) ∈ exec_trace sched s0 ->
            (t = 1 -> carries xa m /\ (xa <> xb -> ~ carries xb m))
            /\ (t = 2 -> carries xb m /\ (xb <> xa -> ~ carries xa m)).
Proof.
  apply (interleaved_requests_keep_their_ids example_settings two_requests
           served_world _ 1 2); [reflexivity .. | lia].
Defined.

(** ** Further facts about [async_makedirs] *)

Lemma path_exists_isdir (p : list string) (fs : gmap (list string) Node) :
  path_isdir p fs = true -> path_exists p fs = true.
Proof.
  unfold path_isdir, path_exists. destruct p as [|x p]; [done |].
  by destruct (fs !! (x :: p)) as [[|]|].
Qed.

Lemma mkdir_spec (tail : string) (rhead : list string)
    (fs fs' : gmap (list string) Node) :
  mkdir tail rhead fs = inr fs' ->
  fs !! rev (tail :: rhead) = None
  /\ path_isdir (rev rhead) fs = true
  /\ fs' = <[rev (tail :: rhead) := Dir]> fs.
Proof.
  unfold mkdir.
  destruct (path_exists (rev (tail :: rhead)) fs) eqn:He; [done |].
  destruct (path_exists (rev rhead) fs); cbn [negb]; [| done].
  destruct (path_isdir (rev rhead) fs) eqn:Hd; cbn [negb]; [| done].
  intros [= <-]. split; [| done].
  unfold path_exists in He.
  destruct (rev (tail :: rhead)) as [|y q] eqn:Hq; [done |].
  apply bool_decide_eq_false in He.
  destruct (fs !! (y :: q)) eqn:Hl; [| done]. destruct He. by eexists.
Qed.

Lemma path_isdir_lookup (p : list string) (x : string)
    (fs : gmap (list string) Node) :
  path_isdir (p ++ [x]) fs = true <-> fs !! (p ++ [x]) = Some Dir.
Proof.
  unfold path_isdir. destruct (p ++ [x]) as [|y q] eqn:Hq.
  - by destruct p.
  - destruct (fs !! (y :: q)) as [[|]|]; split; done.
Qed.

Lemma path_exists_lookup (p : list string) (x : string)
    (fs : gmap (list string) Node) :
  path_exists (p ++ [x]) fs = true <-> is_Some (fs !! (p ++ [x])).
Proof.
  unfold path_exists. destruct (p ++ [x]) as [|y q] eqn:Hq.
  - by destruct p.
  - apply bool_decide_eq_true.
Qed.

Lemma path_isdir_grows (q : list string) (fs fs' : gmap (list string) Node) :
  (forall k n, fs !! k = Some n -> fs' !! k = Some n) ->
  path_isdir q fs = true -> path_isdir q fs' = true.
Proof.
  intros Hsub. unfold path_isdir. destruct q as [|y q]; [done |].
  destruct (fs !! (y :: q)) as [[|]|] eqn:Hl; try done.
  by rewrite (Hsub _ _ Hl).
Qed.

(** In a well-formed file system every ancestor of a directory is one. *)
Lemma wf_fs_ancestors (fs : gmap (list string) Node) (q r : list string) :
  wf_fs fs -> path_isdir (q ++ r) fs = true -> path_isdir q fs = true.
Proof.
  intros Hwf. induction r as [|x r IH] using rev_ind.
  - by rewrite app_nil_r.
  - rewrite app_assoc. intros Hd. apply IH.
    apply path_isdir_lookup in Hd. by apply Hwf in Hd.
Qed.

Lemma wf_fs_insert (fs : gmap (list string) Node) (p : list string)
    (x : string) (node : Node) :
  wf_fs fs -> fs !! (p ++ [x]) = None -> path_isdir p fs = true ->
  wf_fs (<[p ++ [x] := node]> fs).
Proof.
  intros Hwf Hnone Hd q y n Hl.
  assert (forall k m, fs !! k = Some m
            -> <[p ++ [x] := node]> fs !! k = Some m) as Hsub.
  { intros k m Hk. rewrite lookup_insert_ne; [done |]. congruence. }
  destruct (decide (p ++ [x] = q ++ [y])) as [Heq|Hne].
  - apply app_inj_tail in Heq as [<- _]. by apply (path_isdir_grows p fs).
  - rewrite lookup_insert_ne in Hl by done.
    apply (path_isdir_grows q fs); [done |]. by apply Hwf in Hl.
Qed.

(** What a successful [os.makedirs(p, exist_ok=True)] leaves behind. *)
Lemma makedirs_rev_ok (rp : list string) :
  forall fs fs' : gmap (list string) Node,
    wf_fs fs -> makedirs_rev true rp fs = inr fs' ->
    wf_fs fs'
    /\ path_isdir (rev rp) fs' = true
    /\ (forall q n, fs !! q = Some n -> fs' !! q = Some n)
    /\ (forall q n, fs' !! q = Some n ->
          fs !! q = Some n \/ (n = Dir /\ q `prefix_of` rev rp)).
Proof.
  induction rp as [|tail rhead IH]; intros fs fs' Hwf.
  - intros [= <-]. repeat split; auto.
  - cbn [makedirs_rev].
    assert (forall fs1,
      (if path_exists (rev rhead) fs then inr fs
       else match makedirs_rev true rhead fs with
            | inl (FileExistsError _) => inr fs
            | other => other
            end) = inr fs1 ->
      wf_fs fs1
      /\ (forall q n, fs !! q = Some n -> fs1 !! q = Some n)
      /\ (forall q n, fs1 !! q = Some n ->
            fs !! q = Some n \/ (n = Dir /\ q `prefix_of` rev rhead)))
      as Habove.
    { intros fs1. destruct (path_exists (rev rhead) fs).
      - intros [= <-]. auto.
      - destruct (makedirs_rev true rhead fs) as [[]|g] eqn:Hin; try done.
        + intros [= <-]. auto.
        + intros [= <-]. destruct (IH fs g Hwf Hin) as (? & _ & ? & ?). auto. }
    destruct (if path_exists (rev rhead) fs then _ else _) as [e|fs1];
      [done |].
    destruct (Habove fs1 eq_refl) as (Hwf1 & Hsub1 & Hnew1).
    assert (forall q n, fs1 !! q = Some n ->
              fs !! q = Some n \/ (n = Dir /\ q `prefix_of` rev (tail :: rhead)))
      as Hnew1'.
    { intros q n Hq. destruct (Hnew1 q n Hq) as [?|[? ?]]; [by left |].
      right. split; [done |]. simpl. by apply prefix_app_r. }
    destruct (mkdir tail rhead fs1) as [e|fs2] eqn:Hmk.
    + cbn [andb].
      destruct (path_isdir (rev (tail :: rhead)) fs1) eqn:Hd; [| done].
      intros [= <-]. auto.
    + intros [= <-]. apply mkdir_spec in Hmk as (Hnone & Hpar & ->).
      simpl rev in *. split; [by apply wf_fs_insert |].
      split; [apply path_isdir_insert |]. split.
      * intros q n Hq. rewrite lookup_insert_ne; [by apply Hsub1 |].
        intros <-. apply Hsub1 in Hq. congruence.
      * intros q n Hq.
        destruct (decide (rev rhead ++ [tail] = q)) as [<-|Hne].
        -- rewrite lookup_insert_eq in Hq. injection Hq as <-.
           right. done.
        -- rewrite lookup_insert_ne in Hq by done. by apply Hnew1'.
Qed.

(** [os.makedirs(p, exist_ok=True)] succeeds when no regular file lies on
    the path. *)
Lemma makedirs_rev_succeeds (rp : list string) :
  forall fs : gmap (list string) Node,
    wf_fs fs ->
    (forall q, q <> [] -> q `prefix_of` rev rp -> fs !! q <> Some File) ->
    exists fs', makedirs_rev true rp fs = inr fs'.
Proof.
  induction rp as [|tail rhead IH]; intros fs Hwf Hfree; [by eexists |].
  cbn [makedirs_rev].
  assert (forall q, q <> [] -> q `prefix_of` rev rhead -> fs !! q <> Some File)
    as Hfree'.
  { intros q Hne Hq. apply Hfree; [done |]. simpl. by apply prefix_app_r. }
  assert (exists fs1,
    (if path_exists (rev rhead) fs then inr fs
     else match makedirs_rev true rhead fs with
          | inl (FileExistsError _) => inr fs
          | other => other
          end) = inr fs1
    /\ path_isdir (rev rhead) fs1 = true
    /\ (forall q n, fs1 !! q = Some n ->
          fs !! q = Some n \/ n = Dir)) as (fs1 & -> & Hpar & Hnew).
  { destruct (path_exists (rev rhead) fs) eqn:He.
    - exists fs. split; [done |]. split; [| auto].
      unfold path_exists, path_isdir in *.
      destruct (rev rhead) as [|y q] eqn:Hq; [done |].
      apply bool_decide_eq_true in He as [n Hn].
      specialize (Hfree' (y :: q) ltac:(done) ltac:(done)). rewrite Hn in *.
      by destruct n.
    - destruct (IH fs Hwf Hfree') as [g Hg]. rewrite Hg. exists g.
      split; [done |].
      destruct (makedirs_rev_ok rhead fs g Hwf Hg) as (_ & ? & _ & Hk).
      split; [done |]. intros q n Hq.
      destruct (Hk q n Hq) as [?|[? _]]; auto. }
  unfold mkdir.
  destruct (path_exists (rev (tail :: rhead)) fs1) eqn:He.
  - cbn [andb].
    assert (path_isdir (rev (tail :: rhead)) fs1 = true) as ->; [| by eexists].
    simpl rev in *. apply path_isdir_lookup.
    apply path_exists_lookup in He as [n Hn]. rewrite Hn. f_equal.
    destruct (Hnew _ _ Hn) as [Hold| ->]; [| done].
    specialize (Hfree (rev rhead ++ [tail]) ltac:(by destruct (rev rhead))
                  ltac:(done)).
    rewrite Hold in Hfree. by destruct n.
  - rewrite (path_exists_isdir _ _ Hpar), Hpar. cbn [negb]. by eexists.
Qed.

Lemma wf_fs_empty : wf_fs ∅.
Proof. intros p x n H. by rewrite lookup_empty in H. Qed.

(** Nothing lies below a regular file. *)
Lemma wf_fs_below_file (fs : gmap (list string) Node) (q r : list string) :
  wf_fs fs -> q <> [] -> fs !! q = Some File -> r <> [] ->
  fs !! (q ++ r) = None.
Proof.
  intros Hwf Hq Hfile Hr.
  destruct (fs !! (q ++ r)) as [n|] eqn:Hl; [| done]. exfalso.
  destruct r as [|z r _] using rev_ind; [done |].
  rewrite app_assoc in Hl. apply Hwf in Hl.
  apply wf_fs_ancestors in Hl; [| done].
  unfold path_isdir in Hl. destruct q; [done |]. by rewrite Hfile in Hl.
Qed.

Lemma makedirs_rev_existing (rp : list string)
    (fs : gmap (list string) Node) :
  wf_fs fs -> path_isdir (rev rp) fs = true ->
  makedirs_rev true rp fs = inr fs
  /\ makedirs_rev false rp fs = inl (FileExistsError (rev rp)).
Proof.
  intros Hwf Hd. destruct rp as [|tail rhead]; [done |].
  cbn [makedirs_rev].
  assert (path_isdir (rev rhead) fs = true) as Hpar.
  { simpl in Hd. by apply wf_fs_ancestors in Hd. }
  rewrite (path_exists_isdir _ _ Hpar). unfold mkdir.
  by rewrite (path_exists_isdir _ _ Hd), Hd.
Qed.

(** Below a regular file [os.makedirs] stops at the first component. *)
Lemma makedirs_rev_below_file (ok : bool) (fs : gmap (list string) Node)
    (q : list string) (x : string) (rr : list string) :
  wf_fs fs -> q <> [] -> fs !! q = Some File ->
  makedirs_rev ok (rr ++ x :: rev q) fs
  = inl (NotADirectoryError (q ++ [x])).
Proof.
  intros Hwf Hq Hfile.
  assert (path_exists q fs = true) as Hex.
  { unfold path_exists. destruct q; [done |].
    apply bool_decide_eq_true. by eexists. }
  assert (path_isdir q fs = false) as Hnd.
  { unfold path_isdir. destruct q; [done |]. by rewrite Hfile. }
  induction rr as [|y rr IH].
  - cbn [app makedirs_rev]. rewrite rev_involutive, Hex. unfold mkdir.
    assert (path_exists (rev (x :: rev q)) fs = false) as Hleaf.
    { simpl. rewrite rev_involutive. apply not_true_is_false.
      intros [n Hn]%path_exists_lookup.
      by rewrite (wf_fs_below_file fs q [x] Hwf Hq Hfile) in Hn. }
    rewrite Hleaf, rev_involutive, Hex, Hnd. cbn [negb].
    assert (path_isdir (rev (x :: rev q)) fs = false) as ->.
    { apply not_true_is_false. intros Hd%path_exists_isdir. congruence. }
    rewrite andb_false_r. simpl. by rewrite rev_involutive.
  - change ((y :: rr) ++ x :: rev q) with (y :: (rr ++ x :: rev q)).
    cbn [makedirs_rev].
    assert (path_exists (rev (rr ++ x :: rev q)) fs = false) as ->.
    { rewrite rev_app_distr. simpl. rewrite rev_involutive, <- app_assoc.
      simpl. unfold path_exists.
      destruct (q ++ x :: rev rr) as [|z k] eqn:Hk; [by destruct q |].
      apply bool_decide_eq_false. rewrite <- Hk.
      rewrite (wf_fs_below_file fs q (x :: rev rr) Hwf Hq Hfile) by done.
      by intros []. }
    by rewrite IH.
Qed.

(** ** Further facts about [setup_logging] *)

(** [setup_logging] as one step: the outcome of making the log directory
    decides; the sinks, the redirection and the closing line follow. *)
Lemma setup_logging_unfold (st : Settings) (site : CallSite) (t : nat)
    (w : World) :
  setup_logging st site t w
  = match async_makedirs (BASE_DIR st ++ ["logs"]) true (w_fs w) with
    | inl e => inl e
    | inr fs =>
        let c := installed_core st (handlers_count (w_core w)) in
        inr (with_logging c (installed_std (w_std w)) fs
               (w_out w ++ emit_all (w_ctx w !! t) (handlers c)
                             (init_record site))
               w)
    end.
Proof.
  unfold setup_logging, logger_add, console_sink, general_sink, error_sink.
  cbn [a_level a_sink a_format a_filter a_colorize a_enqueue a_backtrace
       a_diagnose a_rotation a_retention a_compression a_encoding].
  assert (logger_level (if DEBUG st then "DEBUG" else "INFO")
          = inr (if DEBUG st then mkLevel "DEBUG" 10 [34; 1]%N
                 else mkLevel "INFO" 20 [1]%N)) as ->
    by by destruct (DEBUG st).
  change (logger_level "INFO") with (@inr Exn _ (mkLevel "INFO" 20 [1]%N)).
  change (logger_level "ERROR") with (@inr Exn _ (mkLevel "ERROR" 40 [31; 1]%N)).
  cbn [ok_bind].
  destruct (async_makedirs _ true (w_fs w)) as [e|fs]; [done |].
  cbn [ok_bind]. rewrite logger_log_info. cbn [ok_bind].
  unfold installed_core, installed_std, init_record, console_handler,
    general_handler, error_handler, file_handler.
  simpl. by destruct (DEBUG st).
Qed.

Lemma blocked_fs_wf : wf_fs blocked_fs.
Proof.
  unfold blocked_fs.
  apply (wf_fs_insert _ ["srv"; "ai_agent"] "logs"); [| done | done].
  apply (wf_fs_insert _ ["srv"] "ai_agent"); [| done | done].
  apply (wf_fs_insert _ [] "srv"); [apply wf_fs_empty | done | done].
Qed.

Lemma shadowed_fs_wf : wf_fs shadowed_fs.
Proof.
  unfold shadowed_fs.
  apply (wf_fs_insert _ ["srv"] "ai_agent"); [| done | done].
  apply (wf_fs_insert _ [] "srv"); [apply wf_fs_empty | done | done].
Qed.

(** What a successful [async_makedirs(path, exist_ok=True)] leaves behind. *)
Lemma async_makedirs_sound (p : list string)
    (fs fs' : gmap (list string) Node) :
  wf_fs fs ->
  async_makedirs p true fs = inr fs' ->
  wf_fs fs'
  /\ (forall q, q `prefix_of` p -> path_isdir q fs' = true)
  /\ (forall q n, fs !! q = Some n -> fs' !! q = Some n)
  /\ (forall q n, fs' !! q = Some n ->
        fs !! q = Some n \/ (n = Dir /\ q `prefix_of` p))
  /\ async_makedirs p true fs' = inr fs'.
Proof.
  unfold async_makedirs, makedirs. intros Hwf Hmk.
  destruct (makedirs_rev_ok (rev p) fs fs' Hwf Hmk)
    as (Hwf' & Hd & Hsub & Hnew).
  rewrite rev_involutive in Hd, Hnew.
  split; [done |]. split.
  { intros q [r ->]. by apply (wf_fs_ancestors fs' q r). }
  split; [done |]. split; [done |].
  apply makedirs_rev_existing; [done |]. by rewrite rev_involutive.
Qed.

(** X1: on a well-formed disk a successful async_makedirs(path,
    exist_ok=True) leaves the disk well formed with every ancestor of the
    path a directory, keeps every entry that was there, adds only
    directories on the path, and a second call changes nothing. *)
Theorem async_makedirs_creates_ancestors (p : list string)
    (fs fs' : gmap (list string) Node) :
  wf_fs fs ->
  async_makedirs p true fs = inr fs' ->
  wf_fs fs'
  /\ (forall q, q `prefix_of` p -> path_isdir q fs' = true)
  /\ (forall q n, fs !! q = Some n -> fs' !! q = Some n)
  /\ (forall q n, fs' !! q = Some n ->
        fs !! q = Some n \/ (n = Dir /\ q `prefix_of` p))
  /\ async_makedirs p true fs' = inr fs'.
Proof. apply async_makedirs_sound. Qed.

Lemma async_makedirs_creates_ancestors_witness :
  path_isdir ["srv"] (w_fs served_world) = true
  /\ path_isdir ["srv"; "ai_agent"] (w_fs served_world) = true
  /\ async_makedirs ["srv"; "ai_agent"; "logs"] true (w_fs served_world)
     = inr (w_fs served_world).
Proof.
  destruct (async_makedirs_creates_ancestors ["srv"; "ai_agent"; "logs"]
              ∅ (w_fs served_world) wf_fs_empty eq_refl)
    as (_ & Hdirs & _ & _ & Hagain).
  split; [apply Hdirs; by exists ["ai_agent"; "logs"] |].
  split; [apply Hdirs; by exists ["logs"] | exact Hagain].
Defined.

(** X2: when the path already is a directory, async_makedirs with
    exist_ok=True returns without touching the disk, and with exist_ok=False
    it raises FileExistsError for that path. *)
Theorem async_makedirs_existing_directory (p : list string)
    (fs : gmap (list string) Node) :
  wf_fs fs ->
  path_isdir p fs = true ->
  async_makedirs p true fs = inr fs
  /\ async_makedirs p false fs = inl (FileExistsError p).
Proof.
  intros Hwf Hd. unfold async_makedirs, makedirs.
  rewrite <- (rev_involutive p) in Hd.
  destruct (makedirs_rev_existing (rev p) fs Hwf Hd) as [-> ->].
  by rewrite rev_involutive.
Qed.

Lemma async_makedirs_existing_directory_witness :
  async_makedirs ["srv"; "ai_agent"] true blocked_fs = inr blocked_fs
  /\ async_makedirs ["srv"; "ai_agent"] false blocked_fs
     = inl (FileExistsError ["srv"; "ai_agent"]).
Proof.
  apply (async_makedirs_existing_directory ["srv"; "ai_agent"] blocked_fs
           blocked_fs_wf).
  reflexivity.
Defined.

(** X3: a regular file in the way makes async_makedirs fail whatever
    exist_ok is: with FileExistsError when the file has the name of the
    path itself, with NotADirectoryError for the first component below the
    file when it has the name of an ancestor. *)
Theorem async_makedirs_file_in_the_way (ok : bool) (q : list string)
    (fs : gmap (list string) Node) :
  wf_fs fs ->
  q <> [] ->
  fs !! q = Some File ->
  async_makedirs q ok fs = inl (FileExistsError q)
  /\ forall x r,
       async_makedirs (q ++ x :: r) ok fs
       = inl (NotADirectoryError (q ++ [x])).
Proof.
  intros Hwf Hq Hfile. unfold async_makedirs, makedirs. split.
  - destruct q as [|y q0 _] using rev_ind; [done |].
    rewrite rev_app_distr. cbn [rev app makedirs_rev].
    pose proof (Hwf _ _ _ Hfile) as Hpar.
    rewrite rev_involutive, (path_exists_isdir _ _ Hpar). unfold mkdir.
    cbn [rev]. rewrite rev_involutive.
    assert (path_exists (q0 ++ [y]) fs = true) as ->
      by (apply path_exists_lookup; by eexists).
    assert (path_isdir (q0 ++ [y]) fs = false) as ->.
    { apply not_true_is_false. intros Hd%path_isdir_lookup. congruence. }
    by rewrite andb_false_r.
  - intros x r. rewrite rev_app_distr. cbn [rev].
    rewrite <- app_assoc. cbn [app].
    by apply makedirs_rev_below_file.
Qed.

Lemma async_makedirs_file_in_the_way_witness :
  async_makedirs ["srv"; "ai_agent"; "logs"] true blocked_fs
  = inl (FileExistsError ["srv"; "ai_agent"; "logs"])
  /\ async_makedirs ["srv"; "ai_agent"; "logs"] true shadowed_fs
     = inl (NotADirectoryError ["srv"; "ai_agent"; "logs"]).
Proof.
  split.
  - apply (async_makedirs_file_in_the_way true ["srv"; "ai_agent"; "logs"]
             blocked_fs blocked_fs_wf); done.
  - apply (proj2 (async_makedirs_file_in_the_way true ["srv"; "ai_agent"]
                    shadowed_fs shadowed_fs_wf ltac:(done) eq_refl)
             "logs" []).
Defined.

(** X4: on a well-formed disk async_makedirs(path, exist_ok=True) succeeds
    exactly when no component of the path is a regular file. *)
Theorem async_makedirs_succeeds_iff (p : list string)
    (fs : gmap (list string) Node) :
  wf_fs fs ->
  (exists fs', async_makedirs p true fs = inr fs')
  <-> (forall q, q <> [] -> q `prefix_of` p -> fs !! q <> Some File).
Proof.
  intros Hwf. split.
  - intros [fs' Hmk] q Hq Hpre Hfile.
    destruct (async_makedirs_sound p fs fs' Hwf Hmk)
      as (_ & Hdirs & Hsub & _).
    apply Hsub in Hfile. specialize (Hdirs q Hpre).
    unfold path_isdir in Hdirs. destruct q; [done |]. by rewrite Hfile in Hdirs.
  - intros Hfree. unfold async_makedirs, makedirs.
    apply makedirs_rev_succeeds; [done |]. by rewrite rev_involutive.
Qed.

Lemma async_makedirs_succeeds_iff_witness :
  (exists fs', async_makedirs ["srv"; "ai_agent"; "logs"] true ∅ = inr fs')
  <-> (forall q, q <> [] -> q `prefix_of` ["srv"; "ai_agent"; "logs"] ->
         (∅ : gmap (list string) Node) !! q <> Some File).
Proof.
  apply (async_makedirs_succeeds_iff ["srv"; "ai_agent"; "logs"] ∅).
  apply wf_fs_empty.
Defined.

Lemma redirect_logger_other (s : StdLogging) (name other : string) :
  other <> name ->
  std_named (redirect_logger s name) !! other = std_named s !! other.
Proof. intros Hne. unfold redirect_logger. simpl. by rewrite lookup_insert_ne. Qed.

Lemma redirect_logger_root (s : StdLogging) (name : string) :
  std_root (redirect_logger s name) = std_root s.
Proof. done. Qed.

Lemma installed_std_named (names : list string) :
  forall (s : StdLogging) (name : string),
    std_named (foldl redirect_logger s names) !! name
    = if bool_decide (name ∈ names)
      then Some (mkStdLogger [InterceptHandler] false
                   (sl_level (default (mkStdLogger [] true 0)
                                (std_named s !! name))))
      else std_named s !! name.
Proof.
  induction names as [|x names IH]; intros s name; simpl; [done |].
  rewrite IH. destruct (decide (name = x)) as [->|Hne].
  - rewrite (bool_decide_eq_true_2 (x ∈ x :: names)) by apply list_elem_of_here.
    unfold redirect_logger. simpl. rewrite !lookup_insert_eq. simpl.
    by case_bool_decide.
  - rewrite redirect_logger_other by done.
    destruct (bool_decide (name ∈ names)) eqn:Hin.
    + apply bool_decide_eq_true in Hin.
      by rewrite bool_decide_eq_true_2 by by apply list_elem_of_further.
    + apply bool_decide_eq_false in Hin.
      rewrite bool_decide_eq_false_2; [done |].
      intros [?|?]%elem_of_cons; done.
Qed.

Lemma installed_std_root (names : list string) (s : StdLogging) :
  std_root (foldl redirect_logger s names) = std_root s.
Proof. revert s. induction names as [|x names IH]; intros s; simpl; [done |]. by rewrite IH. Qed.

Lemma installed_std_idem (s : StdLogging) :
  installed_std (installed_std s) = installed_std s.
Proof.
  assert (forall a b : StdLogging,
            std_root a = std_root b -> std_named a = std_named b -> a = b)
    as Hext by (intros [] []; simpl; congruence).
  apply Hext; unfold installed_std.
  - rewrite !installed_std_root. cbn [basicConfig std_root].
    rewrite installed_std_root. by cbn [basicConfig std_root sl_propagate].
  - apply map_eq. intros name. rewrite (installed_std_named _ _ name).
    cbn [basicConfig std_named]. rewrite (installed_std_named _ _ name).
    cbn [basicConfig std_named]. by case_bool_decide.
Qed.


(** X6: setup_logging hands the root logger and the six listed loggers to
    the bridging handler alone, sets the root level to 0, stops the listed
    loggers propagating and keeps their levels; every other logger of the
    standard module is left as it was. *)
Theorem setup_logging_redirects_listed_loggers (st : Settings)
    (site : CallSite) (t : nat) (w w' : World) :
  setup_logging st site t w = inr w' ->
  std_root (w_std w')
  = mkStdLogger [InterceptHandler] (sl_propagate (std_root (w_std w))) 0
  /\ (forall name, name ∈ third_party_loggers ->
        std_named (w_std w') !! name
        = Some (mkStdLogger [InterceptHandler] false
                  (sl_level (default (mkStdLogger [] true 0)
                               (std_named (w_std w) !! name)))))
  /\ (forall name, name ∉ third_party_loggers ->
        std_named (w_std w') !! name = std_named (w_std w) !! name).
Proof.
  rewrite setup_logging_unfold.
  destruct (async_makedirs _ true (w_fs w)) as [e|fs]; [done |].
  intros [= <-]. cbn [with_logging w_std]. unfold installed_std.
  split; [by rewrite installed_std_root |]. split.
  - intros name Hin. rewrite installed_std_named.
    by rewrite bool_decide_eq_true_2.
  - intros name Hin. rewrite installed_std_named.
    by rewrite bool_decide_eq_false_2.
Qed.

Lemma setup_logging_redirects_listed_loggers_witness :
  std_named (w_std served_world) !! "uvicorn.access"
  = Some (mkStdLogger [InterceptHandler] false 0)
  /\ std_named (w_std served_world) !! "sqlalchemy" = None.
Proof.
  destruct (setup_logging_redirects_listed_loggers example_settings
              setup_site 0 fresh_world served_world eq_refl)
    as (_ & Hlisted & Hother).
  split.
  - apply (Hlisted "uvicorn.access"). unfold third_party_loggers.
    do 2 apply list_elem_of_further. apply list_elem_of_here.
  - apply (Hother "sqlalchemy"). unfold third_party_loggers.
    intros Hin. repeat (apply elem_of_cons in Hin as [Hin|Hin]; [done |]).
    by apply elem_of_nil in Hin.
Defined.

(** X7: setup_logging ends with one logging call: the console and the
    general file each receive the line init logger success, the error file
    receives nothing, and the line carries the correlation id of the task
    that runs setup_logging, the sentinel when none is set. It leaves the
    correlation slots, the clock and the entropy of the process alone. *)
Theorem setup_logging_closing_line (st : Settings) (site : CallSite)
    (t : nat) (w w' : World) :
  setup_logging st site t w = inr w' ->
  let n := handlers_count (w_core w) in
  let x := request_id_context_get "miss_traceid" (w_ctx w !! t) in
  let r := set_extra {[ "traceid" := x ]} (init_record site) in
  w_out w' = w_out w ++ [mkMessage n (record_line true r x) r;
                         mkMessage (S n) (record_line false r x) r]
  /\ r_message r = "init logger success"
  /\ w_ctx w' = w_ctx w
  /\ w_ticks w' = w_ticks w
  /\ w_drawn w' = w_drawn w.
Proof.
  rewrite setup_logging_unfold.
  destruct (async_makedirs _ true (w_fs w)) as [e|fs]; [done |].
  intros [= <-] n x r. cbn [with_logging w_out w_ctx w_ticks w_drawn].
  split; [| done]. f_equal. unfold installed_core. cbn [handlers].
  by apply (emit_all_info st).
Qed.

Lemma setup_logging_closing_line_witness :
  map (fun m => (m_handler m, r_extra (m_record m) !! "traceid",
                 r_message (m_record m)))
    (w_out served_world)
  = [(1, Some "miss_traceid", "init logger success");
     (2, Some "miss_traceid", "init logger success")].
Proof.
  destruct (setup_logging_closing_line example_settings setup_site 0
              fresh_world served_world eq_refl) as (Hout & _).
  rewrite Hout. reflexivity.
Defined.

(** X8: setup_logging can be run again. On a well-formed disk a second run
    after a first succeeds, leaves exactly the three sinks (the earlier ones
    are removed, not doubled) under three new ids, and changes neither the
    disk nor the configuration of the standard module. *)
Theorem setup_logging_again (st : Settings) (site site' : CallSite)
    (t t' : nat) (w w' : World) :
  wf_fs (w_fs w) ->
  setup_logging st site t w = inr w' ->
  exists w'',
    setup_logging st site' t' w' = inr w''
    /\ w_core w'' = installed_core st (handlers_count (w_core w) + 3)
    /\ w_fs w'' = w_fs w'
    /\ w_std w'' = w_std w'.
Proof.
  intros Hwf. rewrite !setup_logging_unfold.
  destruct (async_makedirs _ true (w_fs w)) as [e|fs] eqn:Hmk; [done |].
  intros [= <-]. cbn [with_logging w_fs w_core w_std w_out w_ctx].
  destruct (async_makedirs_sound _ _ _ Hwf Hmk)
    as (_ & _ & _ & _ & ->).
  eexists. split; [reflexivity |].
  cbn [with_logging w_fs w_core w_std installed_core handlers_count].
  split; [f_equal; lia |]. split; [done |].
  apply installed_std_idem.
Qed.

Lemma setup_logging_again_witness :
  exists w'',
    setup_logging example_settings setup_site 0 served_world = inr w''
    /\ w_core w'' = installed_core example_settings 4
    /\ w_fs w'' = w_fs served_world
    /\ w_std w'' = w_std served_world.
Proof.
  apply (setup_logging_again example_settings setup_site setup_site 0 0
           fresh_world served_world wf_fs_empty eq_refl).
Defined.

(** ** Further facts about [InterceptHandler.emit] *)

Lemma emit_depth_skips (logs : list Frame) (caller : Frame)
    (rest : list Frame) :
  Forall in_logging logs -> ~ in_logging caller ->
  forall depth,
    emit_depth (logs ++ caller :: rest) depth = inr (depth + length logs).
Proof.
  intros Hlogs Hcaller. induction Hlogs as [|f logs Hf _ IH]; intros depth.
  - simpl. apply String.eqb_neq in Hcaller. rewrite Hcaller. f_equal. lia.
  - simpl. apply String.eqb_eq in Hf. rewrite Hf, IH. f_equal. lia.
Qed.

Lemma emit_depth_exhausted (frames : list Frame) :
  Forall in_logging frames ->
  forall depth,
    emit_depth frames depth
    = inl (AttributeError "'NoneType' object has no attribute 'f_code'").
Proof.
  induction 1 as [|f frames Hf _ IH]; intros depth; simpl; [done |].
  apply String.eqb_eq in Hf. by rewrite Hf.
Qed.

(** X9: when logging.currentframe() is the frame two above emit, the loop
    over f_back skips the frames of the logging module and the re-emitted
    record is attributed to the first frame outside it, the code that
    logged. *)
Theorem emit_attributes_to_caller (cur : option string) (c : Core)
    (record : StdRecord) (above logs : list Frame) (caller : Frame)
    (rest : list Frame) :
  sr_currentframe record = 2 ->
  sr_stack record = above ++ logs ++ caller :: rest ->
  length above = 2 ->
  Forall in_logging logs ->
  ~ in_logging caller ->
  emit cur c record
  = logger_log cur c
      (mkCall (mkSite (sr_time record) (sr_process record)
                 (sr_thread record) caller)
         (emit_level record) (sr_message record) ∅ (sr_exc_info record)).
Proof.
  intros Hk Hstack Hlen Hlogs Hcaller. unfold emit.
  rewrite Hk, Hstack, <- Hlen, drop_app_length.
  rewrite (emit_depth_skips logs caller rest Hlogs Hcaller).
  rewrite lookup_app_r by lia.
  replace (length above + length logs - length above) with (length logs)
    by lia.
  by rewrite list_lookup_middle.
Qed.

Lemma emit_attributes_to_caller_witness :
  emit (Some "abc123") (w_core served_world) warning_record
  = logger_log (Some "abc123") (w_core served_world)
      (mkCall (mkSite example_time 4242 140001
                 (mkFrame "uvicorn/server.py" "uvicorn.server" "serve" 84))
         (LName "WARNING") "slow client" ∅ None).
Proof.
  apply (emit_attributes_to_caller (Some "abc123") (w_core served_world)
           warning_record
           [mkFrame "config/log.py" "config.log" "emit" 48;
            mkFrame logging_file "logging" "handle" 978]
           [mkFrame logging_file "logging" "callHandlers" 1706;
            mkFrame logging_file "logging" "handle" 1644;
            mkFrame logging_file "logging" "_log" 1634;
            mkFrame logging_file "logging" "log" 1559]
           (mkFrame "uvicorn/server.py" "uvicorn.server" "serve" 84) []);
    try reflexivity.
  - repeat constructor.
  - unfold in_logging. simpl. discriminate.
Defined.

(** X10: when logging.currentframe() is the frame of emit itself, which is
    not a frame of the logging module, the loop does not run: the depth
    stays 2 and the record is attributed to the frame two above emit,
    whatever that frame is. *)
Theorem emit_depth_stays_two (cur : option string) (c : Core)
    (record : StdRecord) (self f1 f2 : Frame) (rest : list Frame) :
  sr_currentframe record = 0 ->
  sr_stack record = self :: f1 :: f2 :: rest ->
  ~ in_logging self ->
  emit cur c record
  = logger_log cur c
      (mkCall (mkSite (sr_time record) (sr_process record)
                 (sr_thread record) f2)
         (emit_level record) (sr_message record) ∅ (sr_exc_info record)).
Proof.
  intros Hk Hstack Hself. unfold emit. rewrite Hk, Hstack. simpl.
  apply String.eqb_neq in Hself. by rewrite Hself.
Qed.

Lemma emit_depth_stays_two_witness :
  emit None (w_core served_world) warning_record_direct
  = logger_log None (w_core served_world)
      (mkCall (mkSite example_time 4242 140001
                 (mkFrame logging_file "logging" "callHandlers" 1706))
         (LName "WARNING") "slow client" ∅ None).
Proof.
  apply (emit_depth_stays_two None (w_core served_world)
           warning_record_direct
           (mkFrame "config/log.py" "config.log" "emit" 48)
           (mkFrame logging_file "logging" "handle" 978)
           (mkFrame logging_file "logging" "callHandlers" 1706)
           (drop 3 (sr_stack audit_record)));
    try reflexivity.
  unfold in_logging. simpl. discriminate.
Defined.

(** X11: when every frame from logging.currentframe() outwards belongs to
    the logging module, the loop runs off the stack and emit raises
    AttributeError; nothing is logged. *)
Theorem emit_stack_exhausted (cur : option string) (c : Core)
    (record : StdRecord) :
  Forall in_logging (drop (sr_currentframe record) (sr_stack record)) ->
  emit cur c record
  = inl (AttributeError "'NoneType' object has no attribute 'f_code'").
Proof.
  intros Hall. unfold emit. by rewrite emit_depth_exhausted.
Qed.

Lemma emit_stack_exhausted_witness :
  emit None (w_core served_world) stray_record
  = inl (AttributeError "'NoneType' object has no attribute 'f_code'").
Proof.
  apply (emit_stack_exhausted None (w_core served_world) stray_record).
  repeat constructor.
Defined.

(** X12: a record whose level name the pipeline does not know and whose
    severity is negative makes emit raise ValueError as soon as one sink is
    registered: the fallback to the numeric level is refused by logger.log.
    With no sink registered emit returns without logging and without
    raising, whatever the level. *)
Theorem emit_negative_level (cur : option string) (c : Core)
    (record : StdRecord) (depth : nat) (frame : Frame) :
  emit_depth (drop (sr_currentframe record) (sr_stack record)) 2 = inr depth ->
  sr_stack record !! depth = Some frame ->
  (handlers c = [] -> emit cur c record = inr [])
  /\ (handlers c <> [] ->
      find_level (sr_levelname record) levels = None ->
      (sr_levelno record < 0)%Z ->
      emit cur c record
      = inl (ValueError
               ("Invalid level value, it should be a positive integer, not: "
                  +:+ str_int (sr_levelno record)))).
Proof.
  intros Hd Hf. unfold emit, logger_log. rewrite Hd, Hf. cbn [lc_level].
  split.
  - by intros ->.
  - intros Hne Hnone Hneg. destruct (handlers c) as [|h hs]; [done |].
    unfold emit_level, logger_level. rewrite Hnone. cbn [resolve_level].
    destruct (Z.ltb_spec (sr_levelno record) 0); [done | lia].
Qed.

Lemma emit_negative_level_witness :
  emit None (mkCore [] 1) negative_record = inr []
  /\ emit None (w_core served_world) negative_record
     = inl (ValueError
              "Invalid level value, it should be a positive integer, not: -5").
Proof.
  destruct (emit_negative_level None (mkCore [] 1) negative_record 6
              (mkFrame "uvicorn/server.py" "uvicorn.server" "serve" 84)
              eq_refl eq_refl) as [Hnone _].
  destruct (emit_negative_level None (w_core served_world) negative_record 6
              (mkFrame "uvicorn/server.py" "uvicorn.server" "serve" 84)
              eq_refl eq_refl) as [_ Hneg].
  split; [by apply Hnone |].
  apply Hneg; [discriminate | reflexivity | simpl; lia].
Defined.



(** ** Further facts about the sinks and the line format *)

(** X14: what each sink receives of any logging call, once the pipeline is
    configured: the console from the level DEBUG when settings.DEBUG holds
    and from INFO otherwise, the general file from INFO, the error file from
    ERROR, each at most one line, in this order; a record below the console
    level reaches no sink. *)
Theorem sinks_receive_by_level (st : Settings) (cur : option string)
    (c : Core) (call : LogCall) (lv : Level) :
  configured st c ->
  resolve_level (lc_level call) = inr lv ->
  let x := request_id_context_get "miss_traceid" cur in
  let r := set_extra {[ "traceid" := x ]} (build_record lv call) in
  exists i1 i2 i3,
    handlers c = [(i1, console_handler st); (i2, general_handler st);
                  (i3, error_handler st)]
    /\ logger_log cur c call
       = inr (sink_lines (console_level st) i1 true r x
                ++ sink_lines 20 i2 false r x
                ++ sink_lines 40 i3 false r x)
    /\ ((lv_no lv < 10)%Z -> logger_log cur c call = inr []).
Proof.
  intros Hc Hlv x r.
  destruct (configured_handlers st c Hc) as (i1 & i2 & i3 & Hh).
  exists i1, i2, i3. split; [done |].
  assert (logger_log cur c call
          = inr (sink_lines (console_level st) i1 true r x
                   ++ sink_lines 20 i2 false r x
                   ++ sink_lines 40 i3 false r x)) as Hlog.
  { rewrite (logger_log_resolved _ _ _ lv Hlv), Hh.
    rewrite !emit_all_cons by (repeat constructor).
    rewrite !handler_emit_filtered by reflexivity.
    unfold sink_lines, console_level, r, x. simpl.
    destruct (DEBUG st); simpl;
      by destruct (lv_no lv <? 10)%Z, (lv_no lv <? 20)%Z, (lv_no lv <? 40)%Z. }
  split; [done |]. intros Hlow. rewrite Hlog.
  unfold sink_lines, console_level, r. simpl.
  destruct (DEBUG st);
    by destruct (Z.ltb_spec (lv_no lv) 10), (Z.ltb_spec (lv_no lv) 20),
      (Z.ltb_spec (lv_no lv) 40); try lia.
Qed.

Lemma sinks_receive_by_level_witness :
  logger_log None (w_core served_world)
    (mkCall route_site (LName "TRACE") "tick" ∅ None) = inr []
  /\ exists line,
       logger_log None (w_core served_world)
         (mkCall route_site (LName "DEBUG") "cache miss" ∅ None)
       = inr [line]
       /\ m_handler line = 1.
Proof.
  destruct (sinks_receive_by_level example_settings None
              (w_core served_world)
              (mkCall route_site (LName "TRACE") "tick" ∅ None)
              (mkLevel "TRACE" 5 [36; 1]%N) eq_refl eq_refl)
    as (_ & _ & _ & _ & _ & Htrace).
  split; [apply Htrace; simpl; lia |].
  eexists. split; reflexivity.
Defined.

(** X15: the record is one object shared by the handlers and _filter
    rewrites it, yet no sink sees the difference: with handlers that all
    filter with _filter and format with log_format, what the later handlers
    emit does not depend on the handlers registered before them, and
    filtering a filtered record again changes nothing. *)
Theorem shared_record_is_harmless (cur : option string)
    (hs1 hs2 : list (nat * Handler)) (r : LogRecord) :
  Forall (fun ih => ours ih.2) hs1 ->
  Forall (fun ih => ours ih.2) hs2 ->
  emit_all cur (hs1 ++ hs2) r = emit_all cur hs1 r ++ emit_all cur hs2 r
  /\ _filter cur (_filter cur r).1 = _filter cur r.
Proof.
  intros H1 H2. split; [| done].
  induction H1 as [|[id h] hs1 Hh H1 IH]; [done |].
  change (((id, h) :: hs1) ++ hs2) with ((id, h) :: (hs1 ++ hs2)).
  rewrite !emit_all_cons, IH, app_assoc; [done | ..].
  - by constructor.
  - constructor; [done |]. by apply Forall_app.
Qed.

Lemma shared_record_is_harmless_witness :
  let r := build_record (mkLevel "ERROR" 40 [31; 1]%N)
             (mkCall route_site (LName "ERROR") "lookup failed"
                {[ "user" := "alice" ]} None) in
  emit_all (Some "abc123")
    ([(1, console_handler example_settings)]
       ++ [(2, general_handler example_settings);
           (3, error_handler example_settings)]) r
  = emit_all (Some "abc123") [(1, console_handler example_settings)] r
      ++ emit_all (Some "abc123")
           [(2, general_handler example_settings);
            (3, error_handler example_settings)] r.
Proof.
  intros r.
  apply (shared_record_is_harmless (Some "abc123")
           [(1, console_handler example_settings)]
           [(2, general_handler example_settings);
            (3, error_handler example_settings)] r);
    repeat constructor.
Defined.

Lemma contains_paint (colorize : bool) (lv : Level) (t : Tag)
    (sub s : string) :
  contains sub s -> contains sub (paint colorize lv t s).
Proof.
  intros Hs. unfold paint. destruct colorize; [| done].
  apply contains_after. destruct Hs as (pre & post & ->).
  exists pre, (post +:+ ansi_reset). by rewrite !append_assoc.
Qed.

Lemma contains_before (sub s b : string) :
  contains sub s -> contains sub (s +:+ b).
Proof.
  intros (pre & post & ->). exists pre, (post +:+ b). by rewrite !append_assoc.
Qed.

Lemma contains_ljust (w : nat) (x : string) : contains x (ljust w x).
Proof.
  unfold ljust, format_str. simpl. apply (contains_here "" x).
Qed.

Lemma contains_refl (x : string) : contains x x.
Proof. exists "", "". by rewrite append_nil_r. Qed.

(** X16: no sink shortens a line: however long the correlation id and the
    message are, every line of the configured pipeline contains both in
    full; an id of 32 characters or more is written without padding, a
    shorter one is followed by spaces up to 32 columns. *)
Theorem lines_keep_id_and_message (st : Settings) (cur : option string)
    (c : Core) (call : LogCall) (lines : list Message) :
  configured st c ->
  logger_log cur c call = inr lines ->
  let x := request_id_context_get "miss_traceid" cur in
  Forall (fun m => contains x (m_text m)
                   /\ contains (lc_message call) (m_text m)) lines
  /\ String.length (ljust 32 x) = Nat.max 32 (String.length x)
  /\ (32 <= String.length x -> ljust 32 x = x).
Proof.
  intros Hc Hlog x. split; [| split].
  - pose proof (configured_ours st c Hc) as Hours. unfold logger_log in Hlog.
    destruct (handlers c) as [|h hs] eqn:Hh.
    { injection Hlog as <-. constructor. }
    destruct (resolve_level (lc_level call)) as [e|lv]; [done |].
    injection Hlog as <-. apply Forall_forall. intros m Hm.
    apply (emit_all_rendered cur (h :: hs) Hours) in Hm
      as (h' & _ & _ & ->).
    unfold record_line, spec_line. split.
    + do 5 apply contains_after. apply contains_before.
      apply contains_paint, contains_ljust.
    + do 18 apply contains_after. apply contains_before.
      apply contains_paint. simpl. apply contains_refl.
  - unfold ljust. by rewrite format_str_length.
  - intros Hlong. unfold ljust, format_str. simpl.
    replace (32 - String.length x) with 0 by lia. simpl.
    by rewrite append_nil_r.
Qed.

Lemma lines_keep_id_and_message_witness :
  let x := "0123456789abcdef0123456789abcdef-and-a-tail" in
  exists lines,
    logger_log (Some x) (w_core served_world)
      (info_call route_site "hello world") = inr lines
    /\ Forall (fun m => contains x (m_text m)
                        /\ contains "hello world" (m_text m)) lines
    /\ ljust 32 x = x.
Proof.
  intros x.
  destruct (lines_keep_id_and_message example_settings (Some x)
              (w_core served_world) (info_call route_site "hello world")
              _ eq_refl eq_refl) as (Hlines & _ & Hlong).
  eexists. split; [reflexivity |]. split; [exact Hlines |].
  apply Hlong. simpl. lia.
Defined.




(** ** Further facts about the middleware *)

Lemma handle_app_frame {X : Type} (op : AppE X) (t : nat) (w : World) :
  same_installation w (handle_app op t w).2
  /\ w_ctx (handle_app op t w).2 = w_ctx w
  /\ w_drawn (handle_app op t w).2 = w_drawn w
  /\ w_ticks w <= w_ticks (handle_app op t w).2.
Proof.
  unfold same_installation.
  destruct op; simpl;
    try match goal with |- context [logged _ ?res _] => destruct res end;
    simpl; repeat split; auto.
Qed.

(** Application code changes nothing but the lines in the queues and the
    number of clock readings taken. *)
Lemma run_downstream_frame {A : Type} (c : Coro AppE A) (t : nat) :
  forall w,
    same_installation w (run_downstream c t w).2
    /\ w_ctx (run_downstream c t w).2 = w_ctx w
    /\ w_drawn (run_downstream c t w).2 = w_drawn w
    /\ w_ticks w <= w_ticks (run_downstream c t w).2.
Proof.
  unfold run_downstream.
  induction c as [a|e|X op k IH]; intros w; simpl;
    [unfold same_installation; repeat split; auto .. |].
  pose proof (handle_app_frame op t w) as Hop.
  destruct (handle_app op t w) as [[e|x] w'] eqn:Hh; simpl in *; [done |].
  destruct Hop as ((? & ? & ? & ? & ?) & ? & ? & ?).
  destruct (IH x w') as ((? & ? & ? & ? & ?) & ? & ? & ?).
  unfold same_installation. repeat split; try congruence. lia.
Qed.

(** What the middleware touches, whether [call_next] returns or raises. *)
Lemma extra_process_frame (site : CallSite) (request : Request)
    (call_next : Request -> Coro AppE Response) (t : nat) (w : World) :
  let w' := (run_middleware (extra_process site request call_next) t w).2 in
  same_installation w w'
  /\ w_ctx w' = <[t := request_id_of request w]> (w_ctx w)
  /\ w_drawn w'
     = w_drawn w
       + match headers_get (req_headers request) "x-request-id" with
         | Some _ => 0
         | None => 16
         end.
Proof.
  intros w'. unfold w'. rewrite extra_process_run.
  pose proof (run_downstream_frame (call_next request) t
                (entered t request w)) as ((Hc & Hs & Hf & Hk & He) & Hx & Hd & _).
  assert (same_installation w (entered t request w)
          /\ w_ctx (entered t request w)
             = <[t := request_id_of request w]> (w_ctx w)
          /\ w_drawn (entered t request w)
             = w_drawn w
               + match headers_get (req_headers request) "x-request-id" with
                 | Some _ => 0
                 | None => 16
                 end) as ((Hc0 & Hs0 & Hf0 & Hk0 & He0) & Hx0 & Hd0).
  { unfold entered, same_installation.
    destruct (headers_get (req_headers request) "x-request-id"); simpl;
      repeat split; auto. }
  destruct (run_downstream (call_next request) t (entered t request w))
    as [[resp|e] w1]; simpl in *; unfold same_installation; simpl;
    repeat split; congruence.
Qed.

(** X18: whether call_next returns or raises, the middleware leaves the
    pipeline, the standard logging configuration and the disk as they were;
    it writes the correlation slot of its own task and no other, never
    clears it, and draws 16 random bytes exactly when the request has no
    x-request-id header. *)
Theorem extra_process_footprint (site : CallSite) (request : Request)
    (call_next : Request -> Coro AppE Response) (t : nat) (w : World) :
  let w' := (run_middleware (extra_process site request call_next) t w).2 in
  same_installation w w'
  /\ w_ctx w' = <[t := request_id_of request w]> (w_ctx w)
  /\ w_drawn w'
     = w_drawn w
       + match headers_get (req_headers request) "x-request-id" with
         | Some _ => 0
         | None => 16
         end.
Proof. apply extra_process_frame. Qed.

(** X19: the correlation id outlives the request. After the middleware has
    finished in task t, by return or by exception, a later logging call in
    the same task still carries the id of that request until another request
    of the task replaces it, while a task whose slot was never written keeps
    the sentinel. *)
Theorem id_outlives_request (st : Settings) (site : CallSite)
    (request : Request) (call_next : Request -> Coro AppE Response)
    (t u : nat) (w : World) (call : LogCall) (lines : list Message) :
  configured st (w_core w) ->
  let w' := (run_middleware (extra_process site request call_next) t w).2 in
  logger_log (w_ctx w' !! t) (w_core w') call = inr lines ->
  Forall (carries (request_id_of request w)) lines
  /\ (u <> t -> w_ctx w !! u = None ->
      forall lines',
        logger_log (w_ctx w' !! u) (w_core w') call = inr lines' ->
        Forall (carries "miss_traceid") lines').
Proof.
  intros Hc w'.
  destruct (extra_process_frame site request call_next t w)
    as ((Hcore & _) & Hctx & _).
  fold w' in Hcore, Hctx. rewrite Hctx, Hcore, lookup_insert_eq.
  intros Hlog. split.
  - by apply (logger_log_carries st _ _ _ _ Hc Hlog).
  - intros Hne Hnone lines'. rewrite lookup_insert_ne, Hnone by done.
    intros Hlog'. by apply (logger_log_carries st _ _ _ _ Hc Hlog').
Qed.

Lemma id_outlives_request_witness :
  let w' := (run_middleware
               (extra_process middleware_site tagged_request failing_route)
               1 served_world).2 in
  exists lines,
    logger_log (w_ctx w' !! 1) (w_core w')
      (info_call route_site "housekeeping") = inr lines
    /\ length lines = 2
    /\ Forall (carries "abc123") lines.
Proof.
  intros w'. eexists. split; [reflexivity |]. split; [reflexivity |].
  apply (id_outlives_request example_settings middleware_site tagged_request
           failing_route 1 2 served_world
           (info_call route_site "housekeeping") _ eq_refl eq_refl).
Defined.

(** X20: requests without the header never share random bytes: a second
    such request handled after a first draws the 16 bytes that follow those
    of the first, whatever the application did in between. *)
Theorem generated_ids_use_fresh_bytes (site site' : CallSite)
    (request request' : Request)
    (call_next : Request -> Coro AppE Response) (t : nat) (w : World) :
  headers_get (req_headers request) "x-request-id" = None ->
  headers_get (req_headers request') "x-request-id" = None ->
  let w' := (run_middleware (extra_process site request call_next) t w).2 in
  request_id_of request w
  = uuid4_hex (map (fun i => w_entropy w (w_drawn w + i)) (seq 0 16))
  /\ request_id_of request' w'
     = uuid4_hex (map (fun i => w_entropy w (w_drawn w + 16 + i)) (seq 0 16)).
Proof.
  intros Hh Hh' w'.
  destruct (extra_process_frame site request call_next t w)
    as ((_ & _ & _ & _ & He) & _ & Hd).
  fold w' in He, Hd. rewrite Hh in Hd.
  unfold request_id_of. by rewrite Hh, Hh', He, Hd.
Qed.

Lemma generated_ids_use_fresh_bytes_witness :
  let w' := (run_middleware (extra_process middleware_site plain_request route)
               1 served_world).2 in
  request_id_of plain_request served_world
  = uuid4_hex (map (fun i => w_entropy served_world (w_drawn served_world + i))
                 (seq 0 16))
  /\ request_id_of plain_request w'
     = uuid4_hex (map (fun i => w_entropy served_world
                                  (w_drawn served_world + 16 + i))
                    (seq 0 16)).
Proof.
  apply (generated_ids_use_fresh_bytes middleware_site middleware_site
           plain_request plain_request route 1 served_world); reflexivity.
Defined.

(** X21: the pipeline setup_logging leaves is the configured one, and
    handling a request keeps it configured; so what holds of one request
    under a configured pipeline holds of every request that follows. *)
Theorem configured_is_kept (st : Settings) (site site' : CallSite)
    (t t' : nat) (w w' : World) (request : Request)
    (call_next : Request -> Coro AppE Response) :
  setup_logging st site t w = inr w' ->
  configured st (w_core w')
  /\ configured st
       (w_core (run_middleware (extra_process site' request call_next)
                  t' w').2).
Proof.
  intros Hs. pose proof (setup_logging_configured _ _ _ _ _ Hs) as Hc.
  split; [done |].
  destruct (extra_process_frame site' request call_next t' w')
    as ((Hcore & _) & _). simpl in Hcore. by rewrite Hcore.
Qed.

Lemma configured_is_kept_witness :
  configured example_settings (w_core served_world)
  /\ configured example_settings
       (w_core (run_middleware
                  (extra_process middleware_site tagged_request route)
                  1 served_world).2).
Proof.
  apply (configured_is_kept example_settings setup_site middleware_site 0 1
           fresh_world served_world tagged_request route).
  reflexivity.
Defined.




(** ** Further facts about [uuid4().hex] *)

Lemma testbit_shiftl (a k n : N) :
  N.testbit (N.shiftl a k) n
  = if (n <? k)%N then false else N.testbit a (n - k).
Proof.
  destruct (N.ltb_spec n k).
  - by apply N.shiftl_spec_low.
  - by apply N.shiftl_spec_high'.
Qed.

Lemma testbit_small (a m : N) :
  (a < 2 ^ 16)%N -> (16 <= m)%N -> N.testbit a m = false.
Proof.
  intros Ha Hm. destruct (N.eq_dec a 0%N) as [->|Hne]; [apply N.bits_0 |].
  apply N.bits_above_log2.
  assert (N.log2 a < 16)%N by (apply N.log2_lt_pow2; lia). lia.
Qed.

Ltac bits_below_16 m :=
  let H := fresh in
  assert (m = 0 \/ m = 1 \/ m = 2 \/ m = 3 \/ m = 4 \/ m = 5 \/ m = 6
          \/ m = 7 \/ m = 8 \/ m = 9 \/ m = 10 \/ m = 11 \/ m = 12
          \/ m = 13 \/ m = 14 \/ m = 15)%N as H by lia;
  repeat (destruct H as [->|H]; [reflexivity |]); subst; reflexivity.

Lemma testbit_mask (a m : N) (bits : list N) :
  (a < 2 ^ 16)%N ->
  (forall i, (i < 16)%N -> N.testbit a i = bool_decide (i ∈ bits)) ->
  Forall (fun i => (i < 16)%N) bits ->
  N.testbit a m = bool_decide (m ∈ bits).
Proof.
  intros Ha Hlow Hbits. destruct (N.lt_ge_cases m 16) as [Hm|Hm]; [auto |].
  rewrite (testbit_small a m Ha Hm). symmetry. apply bool_decide_eq_false.
  intros Hin. rewrite Forall_forall in Hbits. specialize (Hbits m Hin). lia.
Qed.

Lemma testbit_shifted_mask (a k n : N) (bits : list N) :
  (a < 2 ^ 16)%N ->
  (forall i, (i < 16)%N -> N.testbit a i = bool_decide (i ∈ bits)) ->
  Forall (fun i => (i < 16)%N) bits ->
  N.testbit (N.shiftl a k) n
  = bool_decide (n ∈ (fun i => (i + k)%N) <$> bits).
Proof.
  intros Ha Hlow Hbits. rewrite testbit_shiftl.
  destruct (N.ltb_spec n k) as [Hlt|Hge].
  - symmetry. apply bool_decide_eq_false.
    intros (i & -> & _)%list_elem_of_fmap. lia.
  - rewrite (testbit_mask a (n - k) bits Ha Hlow Hbits).
    apply bool_decide_ext. rewrite list_elem_of_fmap. split.
    + intros Hin. exists (n - k)%N. split; [lia | done].
    + intros (i & -> & Hin). by replace (i + k - k)%N with i by lia.
Qed.

(** The bit [n] of the UUID, from the bit [n] of the random bytes. *)
Lemma uuid4_int_bit (bs : list Byte.byte) (n : N) :
  N.testbit (uuid4_int bs) n
  = if bool_decide (n ∈ [62; 76; 77; 79]%N) then false
    else if bool_decide (n ∈ [63; 78]%N) then true
    else N.testbit (int_from_bytes bs) n.
Proof.
  unfold uuid4_int.
  rewrite !N.lor_spec, !N.ldiff_spec, !N.lor_spec, !N.ldiff_spec.
  rewrite (testbit_shifted_mask 0xc000 48 n [14; 15]%N),
    (testbit_shifted_mask 0x8000 48 n [15]%N),
    (testbit_shifted_mask 0xf000 64 n [12; 13; 14; 15]%N),
    (testbit_shifted_mask 4 76 n [2]%N);
    try done; try (repeat constructor; lia);
    try (intros i Hi; bits_below_16 i).
  cbn [fmap list_fmap N.add Pos.add Pos.succ Pos.add_carry].
  destruct (N.testbit (int_from_bytes bs) n);
    repeat case_bool_decide; cbn [andb orb negb]; try reflexivity; exfalso;
    repeat match goal with
           | H : _ ∈ _ :: _ |- _ => apply elem_of_cons in H as [H|H]
           | H : _ ∈ [] |- _ => by apply elem_of_nil in H
           | H : ~ (_ ∈ _ :: _) |- _ =>
               apply not_elem_of_cons in H; destruct H
           end; lia.
Qed.

Lemma forced_bits_split (n : N) :
  n ∉ forced_bits <-> (n ∉ [62; 76; 77; 79]%N) /\ (n ∉ [63; 78]%N).
Proof. unfold forced_bits. rewrite !not_elem_of_cons. tauto. Qed.

Lemma uuid4_int_free_bit (bs : list Byte.byte) (n : N) :
  n ∉ forced_bits ->
  N.testbit (uuid4_int bs) n = N.testbit (int_from_bytes bs) n.
Proof.
  intros [H1 H2]%forced_bits_split. rewrite uuid4_int_bit.
  by rewrite !bool_decide_eq_false_2.
Qed.

Lemma uuid4_int_zero_bit (bs : list Byte.byte) (n : N) :
  n ∈ [62; 76; 77; 79]%N -> N.testbit (uuid4_int bs) n = false.
Proof. intros Hn. rewrite uuid4_int_bit. by rewrite bool_decide_eq_true_2. Qed.

Lemma uuid4_int_one_bit (bs : list Byte.byte) (n : N) :
  n ∈ [63; 78]%N -> N.testbit (uuid4_int bs) n = true.
Proof.
  intros Hn. rewrite uuid4_int_bit.
  rewrite bool_decide_eq_false_2, bool_decide_eq_true_2; [done .. |].
  intros Hz. repeat (apply elem_of_cons in Hn as [->|Hn];
    [repeat (apply elem_of_cons in Hz as [Hz|Hz]; [discriminate |]);
     by apply elem_of_nil in Hz |]).
  by apply elem_of_nil in Hn.
Qed.

(** X23: the id generated for a request without an x-request-id header is
    the text of a version-4 UUID. Read back as a number, its bits 76 to 79
    spell the version 4, its bits 62 and 63 the variant 10, and each of the
    other bits is the bit of the 16 random bytes drawn. *)
Theorem generated_id_is_version_4 (request : Request) (w : World) :
  headers_get (req_headers request) "x-request-id" = None ->
  let v := of_hex (request_id_of request w) in
  N.testbit v 79 = false /\ N.testbit v 78 = true
  /\ N.testbit v 77 = false /\ N.testbit v 76 = false
  /\ N.testbit v 63 = true /\ N.testbit v 62 = false
  /\ (forall n, n ∉ forced_bits ->
        N.testbit v n = N.testbit (int_from_bytes (next_bytes w)) n).
Proof.
  intros Hnone v. unfold v, request_id_of. rewrite Hnone.
  fold (next_bytes w). rewrite uuid4_hex_value.
  split; [apply uuid4_int_zero_bit; repeat constructor |].
  split; [apply uuid4_int_one_bit; repeat constructor |].
  split; [apply uuid4_int_zero_bit; repeat constructor |].
  split; [apply uuid4_int_zero_bit; repeat constructor |].
  split; [apply uuid4_int_one_bit; repeat constructor |].
  split; [apply uuid4_int_zero_bit; repeat constructor |].
  intros n Hn. by apply uuid4_int_free_bit.
Qed.

Lemma generated_id_is_version_4_witness :
  N.testbit (of_hex (request_id_of plain_request served_world)) 78 = true
  /\ N.testbit (of_hex (request_id_of plain_request served_world)) 63 = true
  /\ N.testbit (of_hex (request_id_of plain_request served_world)) 0
     = N.testbit (int_from_bytes (next_bytes served_world)) 0.
Proof.
  destruct (generated_id_is_version_4 plain_request served_world eq_refl)
    as (_ & H78 & _ & _ & H63 & _ & Hfree).
  split; [exact H78 |]. split; [exact H63 |].
  apply Hfree. apply forced_bits_split.
  split; intros Hz;
    repeat (apply elem_of_cons in Hz as [Hz|Hz]; [discriminate |]);
    by apply elem_of_nil in Hz.
Defined.

(** X24: two requests without an x-request-id header are given the same id
    exactly when the random bytes drawn for them agree on the 122 bits the
    UUID takes from them. *)
Theorem generated_ids_collide_iff (request request' : Request)
    (w w' : World) :
  headers_get (req_headers request) "x-request-id" = None ->
  headers_get (req_headers request') "x-request-id" = None ->
  request_id_of request w = request_id_of request' w'
  <-> (forall n, n ∉ forced_bits ->
         N.testbit (int_from_bytes (next_bytes w)) n
         = N.testbit (int_from_bytes (next_bytes w')) n).
Proof.
  intros Hnone Hnone'. unfold request_id_of. rewrite Hnone, Hnone'.
  fold (next_bytes w) (next_bytes w'). split.
  - intros Heq n Hn.
    rewrite <- !uuid4_int_free_bit by done.
    by rewrite <- !uuid4_hex_value, Heq.
  - intros Hbits. unfold uuid4_hex. do 2 f_equal.
    apply N.bits_inj. intros n. rewrite !uuid4_int_bit.
    repeat case_bool_decide; try done.
    apply Hbits. by apply forced_bits_split.
Qed.

Lemma generated_ids_collide_iff_witness :
  request_id_of plain_request served_world
  = request_id_of plain_request (draw 2 served_world).
Proof.
  apply (proj2 (generated_ids_collide_iff plain_request plain_request
                  served_world (draw 2 served_world) eq_refl eq_refl)).
  intros n _.
  assert (next_bytes (draw 2 served_world) = next_bytes served_world) as ->
    by (vm_compute; reflexivity).
  reflexivity.
Defined.

(** ** The route and the lifespan *)

Lemma handle_log_info (st : Settings) (i1 i2 i3 : nat) (site : CallSite)
    (message : string) (t : nat) (w : World) :
  handlers (w_core w)
  = [(i1, console_handler st); (i2, general_handler st);
     (i3, error_handler st)] ->
  handle_app (Log (info_call site message)) t w
  = (inr tt,
     append_out
       (info_lines i1 i2 site message
          (request_id_context_get "miss_traceid" (w_ctx w !! t))) w).
Proof.
  intros Hh. cbn [handle_app]. rewrite logger_log_info, Hh.
  rewrite (emit_all_info st) by reflexivity. reflexivity.
Qed.

(** X25: a request for the root route served under the middleware in a
    configured process. The response is the route's, status 200 with the
    body Hello World; exactly four lines are added, the route's hello world
    on the console and in the general file and then the completion line on
    the console and in the general file, all four with the id of the
    request; the error file receives nothing; and the elapsed time reported
    is the difference of two consecutive readings of the clock, the only two
    taken. *)
Theorem root_request_output (st : Settings) (msite rsite : CallSite)
    (request : Request) (t : nat) (w : World) :
  configured st (w_core w) ->
  exists i1 i2 i3 w',
    handlers (w_core w)
    = [(i1, console_handler st); (i2, general_handler st);
       (i3, error_handler st)]
    /\ run_middleware (extra_process msite request (fun _ => root rsite)) t w
       = (Returned (mkResponse 200 [("message", "Hello World")]), w')
    /\ w_out w'
       = w_out w
         ++ info_lines i1 i2 rsite "hello world" (request_id_of request w)
         ++ info_lines i1 i2 msite
              (finished_message
                 (w_clock w (S (w_ticks w)) - w_clock w (w_ticks w))
                 (mkResponse 200 [("message", "Hello World")]) request)
              (request_id_of request w)
    /\ w_ticks w' = S (S (w_ticks w)).
Proof.
  intros Hc. destruct (configured_handlers st _ Hc) as (i1 & i2 & i3 & Hh).
  exists i1, i2, i3. rewrite extra_process_run.
  unfold root, run_downstream.
  cbn [run mbind mret coro_mbind coro_mret coro_bind perform].
  change (handle_app Await t (entered t request w))
    with (@inr Exn unit tt, entered t request w).
  cbv beta iota.
  rewrite (handle_log_info st i1 i2 i3)
    by (by rewrite entered_core).
  rewrite entered_ctx. cbn [request_id_context_get].
  eexists. split; [exact Hh |]. split; [reflexivity |].
  unfold completion_call.
  cbn [append_out tick w_out w_ticks w_core w_ctx w_clock lc_message
         info_call].
  rewrite entered_core, entered_out, entered_ticks, entered_ctx,
    entered_clock, Hh.
  split; [| reflexivity].
  rewrite (emit_all_info st) by reflexivity.
  by rewrite <- app_assoc.
Qed.

Lemma root_request_output_witness :
  exists i1 i2 i3 w',
    handlers (w_core served_world)
    = [(i1, console_handler example_settings);
       (i2, general_handler example_settings);
       (i3, error_handler example_settings)]
    /\ run_middleware
         (extra_process middleware_site tagged_request
            (fun _ => root route_site)) 1 served_world
       = (Returned (mkResponse 200 [("message", "Hello World")]), w')
    /\ w_out w'
       = w_out served_world
         ++ info_lines i1 i2 route_site "hello world"
              (request_id_of tagged_request served_world)
         ++ info_lines i1 i2 middleware_site
              (finished_message
                 (w_clock served_world (S (w_ticks served_world))
                  - w_clock served_world (w_ticks served_world))
                 (mkResponse 200 [("message", "Hello World")])
                 tagged_request)
              (request_id_of tagged_request served_world)
    /\ w_ticks w' = S (S (w_ticks served_world)).
Proof.
  apply (root_request_output example_settings middleware_site route_site
           tagged_request 1 served_world).
  reflexivity.
Defined.

(** X26: the lifespan of the application in a configured process. Start-up
    writes the line Starting up... to the console and to the general file
    and returns; shut-down does the same with Shutting down...; both are
    stamped with what the correlation slot of the lifespan's own task holds,
    which a request served by another task in between does not change. *)
Theorem lifespan_lines (st : Settings) (site site' msite : CallSite)
    (request : Request) (call_next : Request -> Coro AppE Response)
    (t0 t : nat) (w : World) :
  configured st (w_core w) ->
  t <> t0 ->
  let x := request_id_context_get "miss_traceid" (w_ctx w !! t0) in
  exists i1 i2 i3,
    handlers (w_core w)
    = [(i1, console_handler st); (i2, general_handler st);
       (i3, error_handler st)]
    /\ let w1 := append_out (info_lines i1 i2 site "Starting up..." x) w in
       run_downstream (lifespan_startup site) t0 w = (Returned tt, w1)
       /\ let w2 := (run_middleware (extra_process msite request call_next)
                       t w1).2 in
          run_downstream (lifespan_shutdown site') t0 w2
          = (Returned tt,
             append_out (info_lines i1 i2 site' "Shutting down..." x) w2).
Proof.
  intros Hc Hne x.
  destruct (configured_handlers st _ Hc) as (i1 & i2 & i3 & Hh).
  exists i1, i2, i3. split; [exact Hh |]. intros w1. split.
  - unfold lifespan_startup, run_downstream.
    cbn [run mbind mret coro_mbind coro_mret coro_bind perform].
    rewrite (handle_log_info st i1 i2 i3) by exact Hh.
    reflexivity.
  - intros w2.
    destruct (extra_process_frame msite request call_next t w1)
      as ((Hcore & _) & Hctx & _).
    fold w2 in Hcore, Hctx.
    unfold lifespan_shutdown, run_downstream.
    cbn [run mbind mret coro_mbind coro_mret coro_bind perform].
    rewrite (handle_log_info st i1 i2 i3) by (by rewrite Hcore).
    rewrite Hctx, lookup_insert_ne by done. reflexivity.
Qed.

Lemma lifespan_lines_witness :
  exists i1 i2 i3,
    handlers (w_core served_world)
    = [(i1, console_handler example_settings);
       (i2, general_handler example_settings);
       (i3, error_handler example_settings)]
    /\ let w1 := append_out
                   (info_lines i1 i2 setup_site "Starting up..."
                      "miss_traceid") served_world in
       run_downstream (lifespan_startup setup_site) 0 served_world
       = (Returned tt, w1)
       /\ let w2 := (run_middleware
                       (extra_process middleware_site tagged_request route)
                       1 w1).2 in
          run_downstream (lifespan_shutdown setup_site) 0 w2
          = (Returned tt,
             append_out
               (info_lines i1 i2 setup_site "Shutting down..."
                  "miss_traceid") w2).
Proof.
  apply (lifespan_lines example_settings setup_site setup_site
           middleware_site tagged_request route 0 1 served_world).
  - reflexivity.
  - lia.
Defined.
